(** * PortfolioChecker: the allocation and rebalancing engine of [pages/show.py]

    A shallow embedding of the portfolio page: the category hierarchy and its
    validation, the holdings store, the valuation of a snapshot, the deviation
    tables and the rebalancing advice, followed by the properties of each.

    Numbers.  The page computes with Python and numpy floats.  They are
    modelled by exact rationals ([Q]); the results of a numpy division by zero
    (nan, inf), which the page can reach, are modelled by [np_float].
    Rounding ([round(x, 2)], [x // 100], the [:.2%] format) is the exact
    rounding of the rational.

    Dictionaries.  Python dictionaries keep insertion order, and the page
    relies on it for the rows of its tables: they are association lists with
    the update-in-place-or-append discipline of [dict.__setitem__]. *)

From Stdlib Require Import List String Ascii Bool ZArith QArith Qround Qabs Qminmax Lia Lqa.
Import ListNotations.

Local Open Scope Q_scope.

(** ** Python dictionaries with string keys *)

Module Dict.

Section Defs.
Context {V : Type}.

Definition t := list (string * V).

(** [d.get(k)] *)
Fixpoint get (k : string) (d : t) : option V :=
  match d with
  | [] => None
  | (k', v) :: d' => if String.eqb k k' then Some v else get k d'
  end.

(** [k in d] *)
Definition mem (k : string) (d : t) : bool :=
  match get k d with Some _ => true | None => false end.

(** [d[k] = v]: an existing key keeps its place, a new key goes last. *)
Fixpoint set (k : string) (v : V) (d : t) : t :=
  match d with
  | [] => [(k, v)]
  | (k', v') :: d' =>
      if String.eqb k k' then (k', v) :: d' else (k', v') :: set k v d'
  end.

(** [del d[k]] *)
Definition del (k : string) (d : t) : t :=
  filter (fun kv => negb (String.eqb k (fst kv))) d.

Definition keys (d : t) : list string := map fst d.
Definition values (d : t) : list V := map snd d.

(** [{**d, **e}] *)
Definition update (d e : t) : t :=
  fold_left (fun acc kv => set (fst kv) (snd kv) acc) e d.

(** A dictionary built from a sequence of items, as a comprehension does. *)
Definition of_items (items : list (string * V)) : t := update [] items.
End Defs.

Arguments t : clear implicits.


End Dict.

(** ** Numbers *)

(** [sum(xs)] *)
Definition py_sum (xs : list Q) : Q := fold_left Qplus xs 0.

(** [a // b] on floats: the floor of the quotient, as a float. *)
Definition floordiv (a b : Q) : Q := inject_Z (Qfloor (a / b)).

(** Rounding to the nearest integer, ties to even. *)
Definition round_half_even (q : Q) : Z :=
  let f := Qfloor q in
  match ((q - inject_Z f) ?= (1 # 2))%Q with
  | Lt => f
  | Gt => (f + 1)%Z
  | Eq => if Z.even f then f else (f + 1)%Z
  end.

(** [round(x, 2)], also what [f"{x:.2f}"] prints. *)
Definition round2 (x : Q) : Q := inject_Z (round_half_even (x * 100)) / 100.

(** The number that [f"{x:.2%}"] prints before the percent sign. *)
Definition percent2 (x : Q) : Q := round2 (x * 100).

(** The number that [f"{x:.0%}"] prints before the percent sign. *)
Definition percent0 (x : Q) : Q := inject_Z (round_half_even (x * 100)).

(** Strict and large comparisons of the page, as booleans. *)
Definition Qltb (a b : Q) : bool := negb (Qle_bool b a).
Definition Qgeb (a b : Q) : bool := Qle_bool b a.

(** What numpy's float64 gives where the page divides without a guard: a
    division by zero is a warning, not an exception, and its result is nan
    or an infinity. *)
Inductive np_float : Type :=
| Finite (q : Q)
| PosInf
| NegInf
| NaN.

(** [a / b] on float64 scalars. *)
Definition np_div (a b : Q) : np_float :=
  if Qeq_bool b 0 then
    if Qeq_bool a 0 then NaN else if Qltb 0 a then PosInf else NegInf
  else Finite (a / b).

(** [d * x] for a finite [d]. *)
Definition np_scale (d : Q) (x : np_float) : np_float :=
  match x with
  | Finite q => Finite (d * q)
  | NaN => NaN
  | PosInf => if Qeq_bool d 0 then NaN else if Qltb 0 d then PosInf else NegInf
  | NegInf => if Qeq_bool d 0 then NaN else if Qltb 0 d then NegInf else PosInf
  end.

(** [x / u] for a finite [u > 0]. *)
Definition np_div_pos (x : np_float) (u : Q) : np_float :=
  match x with
  | Finite q => Finite (q / u)
  | other => other
  end.

(** [round(x * 100, 2)] *)
Definition np_percent_round2 (x : np_float) : np_float :=
  match x with
  | Finite q => Finite (round2 (q * 100))
  | other => other
  end.


(** ** Data model *)

(** The [type] of a holding, as the form's select box offers it. *)
Inductive asset_type : Type := fund | etf | cash.

Definition asset_type_eqb (a b : asset_type) : bool :=
  match a, b with
  | fund, fund | etf, etf | cash, cash => true
  | _, _ => false
  end.

(** One value of [assets_info]; [remark] may be missing in older documents. *)
Record asset_info : Type := {
  code : string;
  type : asset_type;
  remark : option string;
  amount : Q;
  category : string
}.

(** One value of the category hierarchy. *)
Record major_data : Type := {
  ratio : Q;
  subcategories : Dict.t Q
}.

Definition DEFAULT_CATEGORIES : Dict.t major_data :=
  [ ("债券"%string,
      {| ratio := 0.40;
         subcategories := [("利率/国债"%string, 0.20); ("信用/信用"%string, 0.20)] |});
    ("股票"%string,
      {| ratio := 0.40;
         subcategories := [("内地/沪深"%string, 0.10); ("内地/科创"%string, 0.10);
                           ("内地/红利"%string, 0.10); ("全球/美股"%string, 0.10)] |});
    ("商品"%string,
      {| ratio := 0.10; subcategories := [("黄金"%string, 0.10)] |});
    ("机动"%string,
      {| ratio := 0.10; subcategories := [("现金"%string, 0.10)] |}) ].

(** [f"{major_name}-{minor_name}"] *)
Definition full_name (major_name minor_name : string) : string :=
  (major_name ++ "-" ++ minor_name)%string.

Definition flatten_categories (categories : Dict.t major_data)
  : Dict.t Q * Dict.t Q :=
  let target_ratio :=
    Dict.of_items (map (fun item => (fst item, ratio (snd item))) categories) in
  let target_ratio_sub :=
    fold_left
      (fun acc major =>
         fold_left
           (fun acc minor =>
              Dict.set (full_name (fst major) (fst minor)) (snd minor) acc)
           (subcategories (snd major)) acc)
      categories [] in
  (target_ratio, target_ratio_sub).

(** ** The store and the page's messages *)

(** A document of the [users] collection, with the fields the page reads. *)
Record user : Type := {
  username : string;
  assets_info : option (Dict.t asset_info);
  categories : option (Dict.t major_data)
}.

(** What [st.error], [st.success] and [st.warning] show.  A formatted number
    is kept as the number that is printed. *)
Inductive notice : Type :=
| ErrMajorTotal (shown_total : Q)
    (* st.error: 大类比例总和必须为100%，当前为{total_major:.2%} *)
| ErrMinorTotal (major_name : string) (shown_ratio shown_total : Q)
    (* st.error: 「{major_name}」的小类比例总和必须等于大类比例({ratio:.0%})，当前为{total_minor:.0%} *)
| OkCategoriesSaved          (* st.success: 分类配置保存成功！ *)
| ErrSaveFailed (e : string) (* st.error: 保存失败：{e} *)
| OkAssetAdded               (* st.success: 标的添加成功！ *)
| ErrAddFailed (e : string)  (* st.error: 添加失败：{e} *)
| OkAssetUpdated             (* st.success: 标的信息更新成功！ *)
| ErrUpdateFailed (e : string) (* st.error: 更新失败：{e} *)
| OkAssetDeleted (asset_name : string) (* st.success: 标的「{asset_name}」删除成功！ *)
| ErrAssetMissing            (* st.error: 标的不存在，删除失败 *)
| ErrDeleteFailed (e : string) (* st.error: 删除失败：{e} *)
| WarnPrice (name e : string). (* st.warning: 获取 {name} 数据失败：{e} *)

(** The state a call of the page's functions runs in: the collection, the
    session's user name, whether the server answers (pymongo raises when it
    does not) and the messages shown so far. *)
Record world : Type := {
  users_collection : list user;
  current_username : string;
  mongo_up : bool;
  shown : list notice
}.

(** A Python computation: it returns or raises, and changes the world. *)
Inductive outcome (A : Type) : Type :=
| Return (a : A)
| Raise (e : string).
Arguments Return {A} a.
Arguments Raise {A} e.

Definition py (A : Type) : Type := world -> outcome A * world.

Definition ret {A} (a : A) : py A := fun w => (Return a, w).

Definition bind {A B} (m : py A) (k : A -> py B) : py B :=
  fun w =>
    match m w with
    | (Return a, w') => k a w'
    | (Raise e, w') => (Raise e, w')
    end.

Notation "x <- m ;; k" := (bind m (fun x => k))
  (at level 61, m at next level, right associativity).
Notation "m ;;; k" := (bind m (fun _ => k))
  (at level 61, right associativity).

(** [try: body  except Exception as e: handler(e)] *)
Definition try_except {A} (body : py A) (handler : string -> py A) : py A :=
  fun w =>
    match body w with
    | (Return a, w') => (Return a, w')
    | (Raise e, w') => handler e w'
    end.

Definition st_show (n : notice) : py unit :=
  fun w =>
    (Return tt,
     {| users_collection := users_collection w;
        current_username := current_username w;
        mongo_up := mongo_up w;
        shown := shown w ++ [n] |}).

Definition session_username : py string :=
  fun w => (Return (current_username w), w).

Definition server_error : string := "ServerSelectionTimeoutError"%string.

(** [users_collection.find_one({"username": name}, ...)] *)
Definition find_one (name : string) : py (option user) :=
  fun w =>
    if mongo_up w then
      (Return (find (fun u => String.eqb (username u) name) (users_collection w)), w)
    else (Raise server_error, w).

(** The first document that matches is rewritten; none matching is no error. *)
Fixpoint update_first (name : string) (f : user -> user) (us : list user)
  : list user :=
  match us with
  | [] => []
  | u :: rest =>
      if String.eqb (username u) name then f u :: rest
      else u :: update_first name f rest
  end.

(** [users_collection.update_one({"username": name}, {"$set": ...})] *)
Definition update_one (name : string) (f : user -> user) : py unit :=
  fun w =>
    if mongo_up w then
      (Return tt,
       {| users_collection := update_first name f (users_collection w);
          current_username := current_username w;
          mongo_up := mongo_up w;
          shown := shown w |})
    else (Raise server_error, w).

Definition set_assets_info (a : Dict.t asset_info) (u : user) : user :=
  {| username := username u; assets_info := Some a; categories := categories u |}.

Definition set_categories (c : Dict.t major_data) (u : user) : user :=
  {| username := username u; assets_info := assets_info u; categories := Some c |}.

Definition get_user_config_from_db : py (Dict.t asset_info * Dict.t major_data) :=
  name <- session_username ;;
  if String.eqb name "" then ret ([], DEFAULT_CATEGORIES)
  else
    found <- find_one name ;;
    ret (match found with
         | Some u =>
             (match assets_info u with Some a => a | None => [] end,
              match categories u with Some c => c | None => DEFAULT_CATEGORIES end)
         | None => ([], DEFAULT_CATEGORIES)
         end).

(** ** Saving the category hierarchy *)

(** The loop over the major categories: the first one whose subcategories do
    not add up to its ratio stops the save with its message. *)
Fixpoint check_minor_totals (items : list (string * major_data)) : option notice :=
  match items with
  | [] => None
  | (major_name, data) :: rest =>
      let total_minor := py_sum (Dict.values (subcategories data)) in
      if Qle_bool (0.99 * ratio data) total_minor
         && Qle_bool total_minor (1.01 * ratio data)
      then check_minor_totals rest
      else Some (ErrMinorTotal major_name (percent0 (ratio data)) (percent0 total_minor))
  end.

Definition save_categories_to_db (categories : Dict.t major_data) : py bool :=
  try_except
    (let total_major := py_sum (map (fun item => ratio (snd item)) categories) in
     if negb (Qle_bool 0.99 total_major && Qle_bool total_major 1.01) then
       st_show (ErrMajorTotal (percent2 total_major)) ;;; ret false
     else
       match check_minor_totals categories with
       | Some message => st_show message ;;; ret false
       | None =>
           name <- session_username ;;
           update_one name (set_categories categories) ;;;
           st_show OkCategoriesSaved ;;;
           ret true
       end)
    (fun e => st_show (ErrSaveFailed e) ;;; ret false).

(** ** Adding, updating and deleting holdings *)

Definition add_asset_to_db (asset_data : Dict.t asset_info) : py bool :=
  try_except
    (config <- get_user_config_from_db ;;
     let current_assets := fst config in
     let updated_assets := Dict.update current_assets asset_data in
     name <- session_username ;;
     update_one name (set_assets_info updated_assets) ;;;
     st_show OkAssetAdded ;;;
     ret true)
    (fun e => st_show (ErrAddFailed e) ;;; ret false).

Definition update_asset_in_db (asset_data : Dict.t asset_info) : py bool :=
  try_except
    (config <- get_user_config_from_db ;;
     let current_assets := fst config in
     let updated_assets := Dict.update current_assets asset_data in
     name <- session_username ;;
     update_one name (set_assets_info updated_assets) ;;;
     st_show OkAssetUpdated ;;;
     ret true)
    (fun e => st_show (ErrUpdateFailed e) ;;; ret false).

Definition delete_asset_from_db (asset_name : string) : py bool :=
  try_except
    (config <- get_user_config_from_db ;;
     let current_assets := fst config in
     if Dict.mem asset_name current_assets then
       name <- session_username ;;
       update_one name (set_assets_info (Dict.del asset_name current_assets)) ;;;
       st_show (OkAssetDeleted asset_name) ;;;
       ret true
     else
       st_show ErrAssetMissing ;;; ret false)
    (fun e => st_show (ErrDeleteFailed e) ;;; ret false).

(** What the store holds for the session's user. *)
Definition stored_user (w : world) : option user :=
  find (fun u => String.eqb (username u) (current_username w)) (users_collection w).

Definition stored_assets (w : world) : Dict.t asset_info :=
  match stored_user w with
  | Some u => match assets_info u with Some a => a | None => [] end
  | None => []
  end.

Definition stored_categories (w : world) : option (Dict.t major_data) :=
  match stored_user w with
  | Some u => categories u
  | None => None
  end.

(** ** Valuation of a snapshot *)

(** What a price source returns: the [close] column of its data frame, empty
    when the source has no data. *)
Definition price_frame : Type := list Q.

(** [frame["close"].iloc[-1]] of a frame that is not empty. *)
Definition latest_close (frame : price_frame) : Q := last frame 0.

(** The first loop's results: the frames [A], the warnings shown, and the
    requests sent to the price sources (kind and code, in order). *)
Record fetched : Type := {
  A : Dict.t price_frame;
  warnings : list notice;
  requests : list (asset_type * string)
}.

Section Valuation.

(** [get_fund_price(code, count=1)] and [get_price(code, frequency="5m",
    count=1)] of [data_utils]: each returns a frame or raises. *)
Variable get_fund_price : string -> outcome price_frame.
Variable get_price : string -> outcome price_frame.

Definition fetch_asset (acc : fetched) (item : string * asset_info) : fetched :=
  let name := fst item in
  let info := snd item in
  let lookup (source : string -> outcome price_frame) :=
    match source (code info) with
    | Return frame =>
        {| A := Dict.set name frame (A acc);
           warnings := warnings acc;
           requests := requests acc ++ [(type info, code info)] |}
    | Raise e =>
        {| A := A acc;
           warnings := warnings acc ++ [WarnPrice name e];
           requests := requests acc ++ [(type info, code info)] |}
    end in
  match type info with
  | fund => lookup get_fund_price
  | etf => lookup get_price
  | cash => acc
  end.

Definition fetch_prices (assets_info : Dict.t asset_info) : fetched :=
  fold_left fetch_asset assets_info {| A := []; warnings := []; requests := [] |}.

End Valuation.

(** The body of the second loop, for one holding. *)
Definition current_value (A : Dict.t price_frame) (name : string) (info : asset_info) : Q :=
  match type info with
  | cash => amount info
  | _ =>
      match Dict.get name A with
      | Some [] => 0
      | Some frame => amount info * latest_close frame
      | None => 0
      end
  end.

Definition current_values (A : Dict.t price_frame) (assets_info : Dict.t asset_info)
  : Dict.t Q :=
  fold_left
    (fun acc item => Dict.set (fst item) (current_value A (fst item) (snd item)) acc)
    assets_info [].

(** ** The data frame of holdings *)

(** [s.split(sep)] for a one-character separator. *)
Fixpoint split_on (sep : ascii) (s : string) : list string :=
  match s with
  | EmptyString => [EmptyString]
  | String c rest =>
      if Ascii.eqb c sep then EmptyString :: split_on sep rest
      else
        match split_on sep rest with
        | [] => [String c EmptyString]
        | part :: parts => String c part :: parts
        end
  end.

Definition dash : ascii := "-"%char.

(** A row of [df]; its index label is the holding's name.  Columns: 代码,
    类型, 持有份额, 分类, 备注, 现有价值, 大类, 小类. *)
Record df_row : Type := {
  df_name : string;
  df_code : string;
  df_type : asset_type;
  df_amount : Q;
  df_category : string;
  df_remark : string;
  df_value : Q;
  df_major : string;
  df_minor : option string
}.

Definition no_remark : string := "无"%string.

(** The frame is built row by row; [str.split("-", expand=True)] makes as many
    columns as the longest split, and the assignment to the two columns 大类
    and 小类 raises unless that is two.  A shorter split leaves 小类 empty. *)
Definition build_df (assets_info : Dict.t asset_info) (values : Dict.t Q)
  : option (list df_row) :=
  let width :=
    fold_right Nat.max 0%nat
      (map (fun item => List.length (split_on dash (category (snd item)))) assets_info) in
  if Nat.eqb width 2 then
    Some
      (map
         (fun item =>
            let info := snd item in
            let parts := split_on dash (category info) in
            {| df_name := fst item;
               df_code := code info;
               df_type := type info;
               df_amount := amount info;
               df_category := category info;
               df_remark := match remark info with Some r => r | None => no_remark end;
               df_value := match Dict.get (fst item) values with Some v => v | None => 0 end;
               df_major := hd EmptyString parts;
               df_minor := nth_error parts 1 |})
         assets_info)
  else None.

(** [df["现有价值"].sum()] *)
Definition total_value (df : list df_row) : Q := py_sum (map df_value df).

(** [df.groupby(key)["现有价值"].sum()]: one entry per key that occurs, with
    the sum of its rows.  (pandas sorts the keys; the tables only look keys
    up, so the order is left as the rows have it.) *)
Definition groupby_sum (key : df_row -> string) (df : list df_row) : Dict.t Q :=
  map
    (fun k => (k, py_sum (map df_value (filter (fun r => String.eqb (key r) k) df))))
    (nodup string_dec (map key df)).

(** [summary.get(k, 0)] *)
Definition get0 (k : string) (summary : Dict.t Q) : Q :=
  match Dict.get k summary with Some v => v | None => 0 end.

(** ** Deviation analysis *)

(** The loop that fills [sub_diff] and [sub_diff_ratio] (and, for the major
    categories, [cls_diff] and [cls_diff_ratio]). *)
Definition diff_loop (total_value : Q) (summary targets : Dict.t Q)
  : Dict.t Q * Dict.t Q :=
  fold_left
    (fun acc item =>
       let k := fst item in
       let tar := snd item in
       let target_value := total_value * tar in
       let actual_value := get0 k summary in
       let diff_k := actual_value - target_value in
       (Dict.set k diff_k (fst acc),
        Dict.set k
          (if negb (Qeq_bool target_value 0) then diff_k / target_value * 100 else 0)
          (snd acc)))
    targets ([], []).

Definition sub_summary (df : list df_row) : Dict.t Q := groupby_sum df_category df.
Definition cls_summary (df : list df_row) : Dict.t Q := groupby_sum df_major df.

Definition sub_diff (df : list df_row) (target_ratio_sub : Dict.t Q) : Dict.t Q :=
  fst (diff_loop (total_value df) (sub_summary df) target_ratio_sub).
Definition sub_diff_ratio (df : list df_row) (target_ratio_sub : Dict.t Q) : Dict.t Q :=
  snd (diff_loop (total_value df) (sub_summary df) target_ratio_sub).
Definition cls_diff (df : list df_row) (target_ratio : Dict.t Q) : Dict.t Q :=
  fst (diff_loop (total_value df) (cls_summary df) target_ratio).
Definition cls_diff_ratio (df : list df_row) (target_ratio : Dict.t Q) : Dict.t Q :=
  snd (diff_loop (total_value df) (cls_summary df) target_ratio).

(** A row of the comparison tables.  Columns: 现有金额, 当前比例, 目标金额,
    目标比例, 差额金额, 差额比例; each is the number printed with two decimals.
    The current ratio divides by the total without a guard.  The subscripts
    [sub_diff[k]] and the like are read with [get0]: their keys are those of
    the targets, so the default is never taken. *)
Record table_row : Type := {
  current_amount : Q;
  current_ratio : np_float;
  target_amount : Q;
  target_ratio_shown : Q;
  diff_amount : Q;
  diff_ratio_shown : Q
}.

Definition table_rows (total_value : Q) (summary targets diff diff_ratio : Dict.t Q)
  : list (string * table_row) :=
  map
    (fun k =>
       (k,
        {| current_amount := round2 (get0 k summary);
           current_ratio := np_percent_round2 (np_div (get0 k summary) total_value);
           target_amount := round2 (total_value * get0 k targets);
           target_ratio_shown := round2 (get0 k targets * 100);
           diff_amount := round2 (get0 k diff);
           diff_ratio_shown := round2 (get0 k diff_ratio) |}))
    (Dict.keys targets).

Definition sub_table (df : list df_row) (target_ratio_sub : Dict.t Q)
  : list (string * table_row) :=
  table_rows (total_value df) (sub_summary df) target_ratio_sub
    (sub_diff df target_ratio_sub) (sub_diff_ratio df target_ratio_sub).

Definition cls_table (df : list df_row) (target_ratio : Dict.t Q)
  : list (string * table_row) :=
  table_rows (total_value df) (cls_summary df) target_ratio
    (cls_diff df target_ratio) (cls_diff_ratio df target_ratio).

(** ** Rebalancing advice *)

(** The subcategory that is never rebalanced. *)
Definition liquidity_key : string := "机动-现金"%string.

(** A value of [adjustment].  Keys: 目标比例, 当前比例, 比例偏差, 价值偏差,
    偏差百分比. *)
Record adjustment_entry : Type := {
  adj_target : Q;
  adj_current : Q;
  adj_diff_ratio : Q;
  adj_diff_value : Q;
  adj_deviation_pct : Q
}.

(** [v.get("类型")]: the entries have no such key. *)
Definition adj_type (v : adjustment_entry) : option string := None.

Definition adjustment (df : list df_row) (target_ratio_sub : Dict.t Q)
  : Dict.t adjustment_entry :=
  let total_value := total_value df in
  let category_value := groupby_sum df_category df in
  let current_ratio :=
    map (fun item => (fst item, snd item / total_value)) category_value in
  fold_left
    (fun acc item =>
       let category := fst item in
       if String.eqb category liquidity_key then acc
       else
         let target := snd item in
         let current := get0 category current_ratio in
         let diff_ratio := target - current in
         let diff_value := total_value * diff_ratio in
         let deviation_pct :=
           if Qltb 0 target then Qabs diff_ratio / target else 1 in
         Dict.set category
           {| adj_target := target;
              adj_current := current;
              adj_diff_ratio := diff_ratio;
              adj_diff_value := diff_value;
              adj_deviation_pct := deviation_pct |}
           acc)
    target_ratio_sub [].

Definition significant_adj (adjustment : Dict.t adjustment_entry)
  : Dict.t adjustment_entry :=
  filter
    (fun item =>
       Qgeb (adj_deviation_pct (snd item)) 0.2
       && negb (match adj_type (snd item) with
                | Some t => String.eqb t "cash"
                | None => false
                end))
    adjustment.

Definition major_deviation (significant : Dict.t adjustment_entry) : Dict.t Q :=
  fold_left
    (fun acc item =>
       let major := hd EmptyString (split_on dash (fst item)) in
       Dict.set major (get0 major acc + adj_deviation_pct (snd item)) acc)
    significant [].

(** The share adjustment of one holding, from its theoretical [base_shares]
    and its [current_shares]: the branches on the holding's type and on the
    sign of [base_shares]. *)
Definition adjust_shares (asset_type : asset_type) (base_shares current_shares : Q) : Q :=
  match asset_type with
  | etf =>
      if Qltb 0 base_shares then floordiv base_shares 100 * 100
      else if Qltb base_shares 0 then
        let adjust := (floordiv base_shares 100 + 1) * 100 in
        if Qltb current_shares (Qabs adjust)
        then - (floordiv current_shares 100 * 100)
        else adjust
      else 0
  | fund =>
      if Qltb 0 base_shares then round2 base_shares
      else if Qltb base_shares 0 then
        let adjust := round2 base_shares in
        if Qltb current_shares (Qabs adjust)
        then - round2 current_shares
        else adjust
      else 0
  | cash => 0
  end.

(** The same branches when [base_shares] is not finite: every comparison
    with nan is false, [inf // 100] is nan, and rounding keeps an infinity. *)
Definition adjust_shares_np (asset_type : asset_type) (base_shares : np_float)
    (current_shares : Q) : np_float :=
  match base_shares with
  | Finite b => Finite (adjust_shares asset_type b current_shares)
  | NaN => Finite 0
  | PosInf =>
      match asset_type with
      | etf => NaN
      | fund => PosInf
      | cash => Finite 0
      end
  | NegInf =>
      match asset_type with
      | etf => NaN
      | fund => Finite (- round2 current_shares)
      | cash => Finite 0
      end
  end.

Definition np_abs (x : np_float) : np_float :=
  match x with
  | Finite q => Finite (Qabs q)
  | NegInf => PosInf
  | other => other
  end.

(** [f"{x:.2f}"] *)
Definition np_round2 (x : np_float) : np_float :=
  match x with
  | Finite q => Finite (round2 q)
  | other => other
  end.

(** A suggestion for one holding: [st.info] 建议增持 with the shares, their
    value and the unit value, or [st.warning] 建议减持 with the shares, their
    value and the shares held. *)
Inductive holding_line : Type :=
| Increase (asset_name : string) (shares value : np_float) (unit_value : Q)
| Reduce (asset_name : string) (shares value : np_float) (current_shares : Q).

(** The body of the loop over the holdings of an actionable subcategory. *)
Definition asset_suggestion (diff_value category_total : Q) (r : df_row)
  : option holding_line :=
  let asset_type := df_type r in
  let current_shares := df_amount r in
  let unit_value :=
    if Qltb 0 current_shares then df_value r / current_shares else 1 in
  let asset_value_ratio := np_div (df_value r) category_total in
  let asset_adjust_value := np_scale diff_value asset_value_ratio in
  let adjust :=
    if Qltb 0 unit_value then
      adjust_shares_np asset_type (np_div_pos asset_adjust_value unit_value)
        current_shares
    else Finite 0 in
  let increase :=
    Some (Increase (df_name r) adjust (np_round2 (np_scale unit_value adjust))
            (round2 unit_value)) in
  let reduce :=
    Some (Reduce (df_name r) (np_abs adjust)
            (np_round2 (np_scale unit_value (np_abs adjust)))
            (round2 current_shares)) in
  match adjust with
  | Finite a => if Qltb 0 a then increase else if Qltb a 0 then reduce else None
  | PosInf => increase
  | NegInf => reduce
  | NaN => None
  end.

(** What is shown for one actionable subcategory: its header, then either a
    line for each holding that has one or the note that the subcategory has
    no holding ([st.info] 该小类暂无标的). *)
Record category_block : Type := {
  block_category : string;
  block_major : string;
  block_minor : string;
  block_entry : adjustment_entry;
  block_lines : list holding_line;
  block_no_holdings : bool
}.

Definition category_block_of (df : list df_row) (category major minor : string)
    (adj : adjustment_entry) : category_block :=
  let category_assets := filter (fun r => String.eqb (df_category r) category) df in
  match category_assets with
  | _ :: _ =>
      let category_total := py_sum (map df_value category_assets) in
      {| block_category := category;
         block_major := major;
         block_minor := minor;
         block_entry := adj;
         block_lines :=
           flat_map
             (fun r =>
                match asset_suggestion (adj_diff_value adj) category_total r with
                | Some line => [line]
                | None => []
                end)
             category_assets;
         block_no_holdings := false |}
  | [] =>
      {| block_category := category;
         block_major := major;
         block_minor := minor;
         block_entry := adj;
         block_lines := [];
         block_no_holdings := true |}
  end.

(** The loop over [significant_adj]: [major, minor = category.split("-")]
    raises when the key does not split in two, which ends the page's run;
    the flag tells whether the loop reached its end. *)
Fixpoint detail_blocks (df : list df_row) (significant : Dict.t adjustment_entry)
  : list category_block * bool :=
  match significant with
  | [] => ([], true)
  | (category, adj) :: rest =>
      match split_on dash category with
      | [major; minor] =>
          let done := detail_blocks df rest in
          (category_block_of df category major minor adj :: fst done, snd done)
      | _ => ([], false)
      end
  end.

(** The rebalancing section of the page. *)
Inductive rebalance_advice : Type :=
| NeedsSetup     (* st.info: 请先添加标的并设置目标配置比例 *)
| AllZero        (* st.warning: 所有标的现有价值为0 *)
| Balanced       (* st.success: 所有资产类别偏差均小于20% *)
| Suggestions (major_deviation : Dict.t Q) (blocks : list category_block)
    (completed : bool).

Definition rebalance (df : list df_row) (target_ratio_sub : Dict.t Q)
  : rebalance_advice :=
  match df, target_ratio_sub with
  | [], _ => NeedsSetup
  | _, [] => NeedsSetup
  | _, _ =>
      if Qeq_bool (total_value df) 0 then AllZero
      else
        let significant := significant_adj (adjustment df target_ratio_sub) in
        match significant with
        | [] => Balanced
        | _ =>
            let done := detail_blocks df significant in
            Suggestions (major_deviation significant) (fst done) (snd done)
        end
  end.

(** ** The whole computation behind the button 开始计算资产组合 *)

Record report : Type := {
  report_warnings : list notice;
  report_total : Q;
  report_sub_table : list (string * table_row);
  report_cls_table : list (string * table_row);
  report_advice : rebalance_advice
}.

(** [None] when the data frame cannot be built; the warnings of the price
    loop have been shown by then. *)
Definition compute_portfolio
    (get_fund_price get_price : string -> outcome price_frame)
    (assets_info : Dict.t asset_info) (categories : Dict.t major_data)
  : list notice * option report :=
  let targets := flatten_categories categories in
  let prices := fetch_prices get_fund_price get_price assets_info in
  let values := current_values (A prices) assets_info in
  match build_df assets_info values with
  | None => (warnings prices, None)
  | Some df =>
      (warnings prices,
       Some {| report_warnings := warnings prices;
               report_total := total_value df;
               report_sub_table := sub_table df (snd targets);
               report_cls_table := cls_table df (fst targets);
               report_advice := rebalance df (snd targets) |})
  end.

(** ** The invariants of the hierarchy, as the specification states them *)

Definition major_total (categories : Dict.t major_data) : Q :=
  py_sum (map (fun item => ratio (snd item)) categories).

Definition minor_total (data : major_data) : Q :=
  py_sum (Dict.values (subcategories data)).

(** Invariant A: the ratios of the major categories add up to 1, within 1%. *)
Definition InvariantA (categories : Dict.t major_data) : Prop :=
  0.99 <= major_total categories /\ major_total categories <= 1.01.

(** Invariant B for one major category: its subcategories add up to its
    ratio, within 1% of it. *)
Definition minor_total_ok (data : major_data) : Prop :=
  0.99 * ratio data <= minor_total data /\ minor_total data <= 1.01 * ratio data.

Definition InvariantB (categories : Dict.t major_data) : Prop :=
  Forall (fun item => minor_total_ok (snd item)) categories.

(** The message for the first invariant that fails: invariant A before
    invariant B, and for invariant B the first major category, in the order
    of the hierarchy, whose subcategories do not add up.  The sums are shown
    as the page prints them. *)
Definition reports_first_violation (categories : Dict.t major_data) (message : notice)
  : Prop :=
  (~ InvariantA categories
   /\ message = ErrMajorTotal (percent2 (major_total categories)))
  \/ (InvariantA categories
      /\ exists before major_name data after,
           categories = before ++ (major_name, data) :: after
           /\ InvariantB before
           /\ ~ minor_total_ok data
           /\ message = ErrMinorTotal major_name (percent0 (ratio data))
                          (percent0 (minor_total data))).

(** ** Sample data *)

Definition sample_asset (t : asset_type) (shares : Q) (cat : string) : asset_info :=
  {| code := "sh511260"; type := t; remark := None; amount := shares; category := cat |}.

Definition sample_world : world :=
  {| users_collection :=
       [ {| username := "alice";
            assets_info :=
              Some [ ("十年国债"%string, sample_asset etf 600 "债券-利率/国债");
                     ("活期"%string, sample_asset cash 200 "机动-现金") ];
            categories := None |} ];
     current_username := "alice";
     mongo_up := true;
     shown := [] |}.

(** The subcategory keys in the order the hierarchy declares them, and the
    names of the major categories likewise. *)
Definition declared_sub_keys (categories : Dict.t major_data) : list string :=
  flat_map
    (fun major => map (fun minor => full_name (fst major) (fst minor))
                      (subcategories (snd major)))
    categories.

Definition declared_major_keys (categories : Dict.t major_data) : list string :=
  map fst categories.

(** A row as [build_df] makes it, from a name, a type, the shares held, a
    category and a value. *)
Definition sample_row (name : string) (t : asset_type) (shares : Q) (cat : string)
    (value : Q) : df_row :=
  {| df_name := name;
     df_code := "sh511260";
     df_type := t;
     df_amount := shares;
     df_category := cat;
     df_remark := no_remark;
     df_value := value;
     df_major := hd EmptyString (split_on dash cat);
     df_minor := nth_error (split_on dash cat) 1 |}.

(** A hierarchy of two major categories with one subcategory each, and one
    with a subcategory of ratio zero. *)
Definition sample_categories : Dict.t major_data :=
  [ ("A"%string, {| ratio := 0.5; subcategories := [("x"%string, 0.5)] |});
    ("B"%string, {| ratio := 0.5; subcategories := [("y"%string, 0.5)] |}) ].

Definition sample_categories_zero : Dict.t major_data :=
  [ ("A"%string,
     {| ratio := 1; subcategories := [("x"%string, 1); ("y"%string, 0)] |}) ].

(** 600 shares of an exchange-traded fund worth 1 each, and 200 in cash. *)
Definition sample_df : list df_row :=
  [ sample_row "E" etf 600 "A-x" 600; sample_row "C" cash 200 "B-y" 200 ].






(** The lines shown in the block of a subcategory. *)
Definition suggested_lines (advice : rebalance_advice) (category : string)
  : list holding_line :=
  match advice with
  | Suggestions _ blocks _ =>
      flat_map
        (fun b => if String.eqb (block_category b) category then block_lines b else [])
        blocks
  | _ => []
  end.


Definition advice_of (result : list notice * option report) : rebalance_advice :=
  match snd result with
  | Some r => report_advice r
  | None => NeedsSetup
  end.

(** The sale of a lot-traded holding as the specification states it: the
    magnitude of the raw delta rounded down to a multiple of 100, and no
    more than the quantity held rounded down to a multiple of 100. *)
Definition lot_sell_as_specified (raw_delta quantity : Q) : Q :=
  Qmin (floordiv (Qabs raw_delta) 100 * 100) (floordiv quantity 100 * 100).

(** A price source that quotes every code at 1, one that has no data, and
    one that fails. *)
Definition price_one (code : string) : outcome price_frame := Return [1].
Definition price_no_data (code : string) : outcome price_frame := Return [].
Definition price_fails (code : string) : outcome price_frame :=
  Raise "ConnectionError"%string.

(** 600 shares of an exchange-traded fund in [A-x] and 200 in cash in
    [B-y]. *)
Definition sample_assets : Dict.t asset_info :=
  [ ("E"%string, sample_asset etf 600 "A-x");
    ("C"%string, sample_asset cash 200 "B-y") ].

(** 100 in cash in [A-x] and 10.006 shares of an open-ended fund in [A-y],
    whose target ratio is zero in [sample_categories_zero]. *)
Definition sample_assets_fund : Dict.t asset_info :=
  [ ("C"%string, sample_asset cash 100 "A-x");
    ("F"%string, sample_asset fund 10.006 "A-y") ].



(** The request that the first loop sends for a holding, if any, with its
    outcome. *)
Definition price_lookup (get_fund_price get_price : string -> outcome price_frame)
    (info : asset_info) : option (outcome price_frame) :=
  match type info with
  | fund => Some (get_fund_price (code info))
  | etf => Some (get_price (code info))
  | cash => None
  end.

(** ** The edit form *)

(** The handler of the edit form's 确认保存: a changed name is handled as a
    delete of the old record followed by a merge of the new one; the final
    write alone is inside a [try]. *)
Definition submit_edit (original_name new_name : string) (new_info : asset_info)
  : py unit :=
  config <-
    (if negb (String.eqb original_name new_name) then
       delete_asset_from_db original_name ;;; get_user_config_from_db
     else get_user_config_from_db) ;;
  let current_assets := fst config in
  let final_assets := Dict.update current_assets [(new_name, new_info)] in
  try_except
    (name <- session_username ;;
     update_one name (set_assets_info final_assets) ;;;
     st_show OkAssetUpdated)
    (fun e => st_show (ErrUpdateFailed e)).

(** ** Worlds after a write *)

(** The world once [messages] have been shown. *)
Definition notify (messages : list notice) (w : world) : world :=
  {| users_collection := users_collection w;
     current_username := current_username w;
     mongo_up := mongo_up w;
     shown := shown w ++ messages |}.

(** The world once [update_one] has applied [f] for the session's user. *)
Definition written (f : user -> user) (w : world) : world :=
  {| users_collection := update_first (current_username w) f (users_collection w);
     current_username := current_username w;
     mongo_up := mongo_up w;
     shown := shown w |}.

(** The document of any user, by name. *)
Definition document_of (name : string) (w : world) : option user :=
  find (fun u => String.eqb (username u) name) (users_collection w).

(** The hierarchy in effect for the session's user. *)
Definition effective_categories (w : world) : Dict.t major_data :=
  match stored_categories w with
  | Some c => c
  | None => DEFAULT_CATEGORIES
  end.

(** The sample world with the server down, and with a session whose user has
    no document. *)
Definition sample_world_down : world :=
  {| users_collection := users_collection sample_world;
     current_username := "alice";
     mongo_up := false;
     shown := [] |}.

Definition sample_world_stranger : world :=
  {| users_collection := users_collection sample_world;
     current_username := "bob";
     mongo_up := true;
     shown := [] |}.

(** ** Editing the hierarchy *)

(** The button 添加大类 on the working copy [temp_cats]: nothing happens for
    an empty name; a new name gets the ratio and one subcategory 默认小类 of
    the same ratio; a name that exists is refused with an error. *)
Inductive add_major_result : Type :=
| MajorIgnored
| MajorAdded (temp_cats : Dict.t major_data)
| MajorExists.

Definition default_minor : string := "默认小类"%string.

Definition add_major (temp_cats : Dict.t major_data) (new_major_name : string)
    (new_major_ratio : Q) : add_major_result :=
  if String.eqb new_major_name "" then MajorIgnored
  else if negb (Dict.mem new_major_name temp_cats) then
    MajorAdded
      (Dict.set new_major_name
         {| ratio := new_major_ratio;
            subcategories := [(default_minor, new_major_ratio)] |}
         temp_cats)
  else MajorExists.

(** The end of the loop body over the subcategories of a major category,
    with the values of the row's two widgets:
    [if new_minor_name != minor_name: subcats[new_minor_name] =
    subcats.pop(minor_name)] and then [subcats[minor_name] =
    new_minor_ratio]. *)
Definition edit_minor (subcats : Dict.t Q) (minor_name new_minor_name : string)
    (new_minor_ratio : Q) : outcome (Dict.t Q) :=
  if negb (String.eqb new_minor_name minor_name) then
    match Dict.get minor_name subcats with
    | Some popped =>
        Return
          (Dict.set minor_name new_minor_ratio
             (Dict.set new_minor_name popped (Dict.del minor_name subcats)))
    | None => Raise "KeyError"%string
    end
  else Return (Dict.set minor_name new_minor_ratio subcats).

(** The total of the flattened subcategory targets. *)
Definition sub_total (categories : Dict.t major_data) : Q :=
  py_sum (Dict.values (snd (flatten_categories categories))).

(** The value held in the subcategories that the targets configure. *)
Definition configured_value (df : list df_row) (targets : Dict.t Q) : Q :=
  py_sum (map df_value (filter (fun r => Dict.mem (df_category r) targets) df)).

(** * Properties *)

(** ** Dictionaries *)

Module DictFacts.
Import Dict.

Section Facts.
Context {V : Type}.
Implicit Types (d e : t V) (k : string) (v : V).

Lemma get_set_same k v d : get k (set k v d) = Some v.
Proof.
  induction d as [|[k' v'] d IH]; simpl.
  - now rewrite String.eqb_refl.
  - destruct (String.eqb k k') eqn:E; simpl; rewrite E; auto.
Qed.

Lemma get_set_other k k' v d : k' <> k -> get k' (set k v d) = get k' d.
Proof.
  intros Hne. induction d as [|[k0 v0] d IH]; simpl.
  - apply String.eqb_neq in Hne. now rewrite Hne.
  - destruct (String.eqb k k0) eqn:E; simpl.
    + apply String.eqb_eq in E. subst k0.
      apply String.eqb_neq in Hne. now rewrite Hne.
    + now rewrite IH.
Qed.

Lemma keys_set_present k v d :
  In k (keys d) -> keys (set k v d) = keys d.
Proof.
  induction d as [|[k0 v0] d IH]; simpl; [tauto|].
  intros [->|Hin].
  - now rewrite String.eqb_refl.
  - destruct (String.eqb k k0); simpl; [reflexivity|].
    f_equal. now apply IH.
Qed.

Lemma keys_set_absent k v d :
  ~ In k (keys d) -> keys (set k v d) = keys d ++ [k].
Proof.
  induction d as [|[k0 v0] d IH]; simpl; [reflexivity|].
  intros Hnin. destruct (String.eqb k k0) eqn:E.
  - apply String.eqb_eq in E. subst. tauto.
  - simpl. f_equal. apply IH. tauto.
Qed.

Lemma in_keys_get k d : In k (keys d) <-> get k d <> None.
Proof.
  induction d as [|[k0 v0] d IH]; simpl; [tauto|].
  destruct (String.eqb k k0) eqn:E.
  - apply String.eqb_eq in E. subst. split; [discriminate|auto].
  - apply String.eqb_neq in E. rewrite <- IH. split.
    + intros [->|H]; [congruence|assumption].
    + auto.
Qed.

Lemma mem_true_iff k d : mem k d = true <-> In k (keys d).
Proof.
  unfold mem. rewrite in_keys_get.
  destruct (get k d); split; congruence.
Qed.


Lemma NoDup_keys_set k v d : NoDup (keys d) -> NoDup (keys (set k v d)).
Proof.
  intros Hnd.
  destruct (in_dec string_dec k (keys d)) as [Hin|Hnin].
  - now rewrite keys_set_present.
  - rewrite keys_set_absent by assumption.
    apply NoDup_rev in Hnd.
    rewrite <- (rev_involutive (keys d ++ [k])).
    apply NoDup_rev. rewrite rev_app_distr. simpl.
    constructor; [now rewrite <- in_rev|assumption].
Qed.

Lemma get_del_same k d : get k (del k d) = None.
Proof.
  induction d as [|[k0 v0] d IH]; simpl; [reflexivity|].
  destruct (String.eqb k k0) eqn:E; simpl; [assumption|].
  now rewrite E.
Qed.

Lemma get_del_other k k' d : k' <> k -> get k' (del k d) = get k' d.
Proof.
  intros Hne. induction d as [|[k0 v0] d IH]; simpl; [reflexivity|].
  destruct (String.eqb k k0) eqn:E; simpl.
  - apply String.eqb_eq in E. subst k0.
    apply String.eqb_neq in Hne. now rewrite Hne.
  - now rewrite IH.
Qed.

Lemma del_absent k d : get k d = None -> del k d = d.
Proof.
  induction d as [|[k0 v0] d IH]; simpl; [reflexivity|].
  destruct (String.eqb k k0) eqn:E; [discriminate|].
  intros H. simpl. now rewrite IH.
Qed.

Lemma NoDup_keys_update d e : NoDup (keys d) -> NoDup (keys (update d e)).
Proof.
  unfold update. revert d.
  induction e as [|[k v] e IH]; simpl; intros d Hd; [assumption|].
  apply IH. now apply NoDup_keys_set.
Qed.

Lemma NoDup_keys_of_items (items : list (string * V)) :
  NoDup (keys (of_items items)).
Proof. apply NoDup_keys_update. constructor. Qed.

Lemma get_update_single d k v k' :
  get k' (update d [(k, v)]) = if String.eqb k' k then Some v else get k' d.
Proof.
  unfold update. simpl. destruct (String.eqb k' k) eqn:E.
  - apply String.eqb_eq in E. subst. apply get_set_same.
  - apply String.eqb_neq in E. now apply get_set_other.
Qed.

(** Items with pairwise distinct keys are kept as they are. *)
Lemma update_fresh d e :
  NoDup (keys d ++ keys e) -> update d e = d ++ e.
Proof.
  unfold update. revert d.
  induction e as [|[k v] e IH]; simpl; intros d Hnd.
  - now rewrite app_nil_r.
  - assert (Hset : set k v d = d ++ [(k, v)]).
    { assert (Hnin : ~ In k (keys d)).
      { intro Hin. apply NoDup_remove_2 in Hnd. apply Hnd.
        apply in_or_app. now left. }
      clear - Hnin. induction d as [|[k0 v0] d IHd]; simpl; [reflexivity|].
      destruct (String.eqb k k0) eqn:E.
      - apply String.eqb_eq in E. subst. simpl in Hnin. tauto.
      - f_equal. apply IHd. simpl in Hnin. tauto. }
    rewrite Hset, IH.
    + now rewrite <- app_assoc.
    + unfold keys in *. rewrite map_app. simpl.
      rewrite <- app_assoc. simpl. exact Hnd.
Qed.

Lemma of_items_NoDup (items : list (string * V)) :
  NoDup (map fst items) -> of_items items = items.
Proof. intros H. unfold of_items. now rewrite update_fresh. Qed.
End Facts.

End DictFacts.

(** ** Numbers *)

Section NumberFacts.

Lemma Qltb_lt a b : Qltb a b = true <-> a < b.
Proof.
  unfold Qltb. rewrite negb_true_iff.
  destruct (Qle_bool b a) eqn:E.
  - apply Qle_bool_iff in E. split; [discriminate|]. intros H. lra.
  - split; [intros _|reflexivity].
    apply Qnot_le_lt. intro H. apply Qle_bool_iff in H. congruence.
Qed.

Lemma Qltb_ge a b : Qltb a b = false <-> b <= a.
Proof.
  unfold Qltb. rewrite negb_false_iff. apply Qle_bool_iff.
Qed.



Lemma py_sum_acc xs a : fold_left Qplus xs a == a + py_sum xs.
Proof.
  unfold py_sum. revert a.
  induction xs as [|x xs IH]; simpl; intros a; [lra|].
  rewrite (IH (a + x)), (IH (0 + x)). lra.
Qed.

Lemma py_sum_cons x xs : py_sum (x :: xs) == x + py_sum xs.
Proof. unfold py_sum at 1. simpl. rewrite py_sum_acc. lra. Qed.

Lemma py_sum_app xs ys : py_sum (xs ++ ys) == py_sum xs + py_sum ys.
Proof.
  induction xs as [|x xs IH]; simpl.
  - unfold py_sum at 2. simpl. lra.
  - rewrite !py_sum_cons, IH. lra.
Qed.

(** [floordiv] brackets the quotient. *)
Lemma floordiv_bounds a b :
  floordiv a b <= a / b /\ a / b < floordiv a b + 1.
Proof.
  unfold floordiv. split.
  - apply Qfloor_le.
  - pose proof (Qlt_floor (a / b)) as H.
    rewrite inject_Z_plus in H. exact H.
Qed.

(** Rounding moves a number by at most one half. *)
Lemma round_half_even_close q :
  Qabs (inject_Z (round_half_even q) - q) <= 1 # 2.
Proof.
  unfold round_half_even.
  pose proof (Qfloor_le q) as Hlo.
  pose proof (Qlt_floor q) as Hhi. rewrite inject_Z_plus in Hhi.
  set (f := Qfloor q) in *.
  assert (H1 : inject_Z 1 == 1) by reflexivity.
  apply Qabs_Qle_condition.
  destruct (q - inject_Z f ?= 1 # 2) eqn:C.
  - apply Qeq_alt in C.
    destruct (Z.even f); [|rewrite inject_Z_plus]; split; lra.
  - apply Qlt_alt in C. split; lra.
  - apply Qgt_alt in C. rewrite inject_Z_plus. split; lra.
Qed.

Lemma round_half_even_inject z : round_half_even (inject_Z z) = z.
Proof.
  unfold round_half_even. rewrite Qfloor_Z.
  assert (H : (inject_Z z - inject_Z z ?= 1 # 2) = Lt).
  { rewrite <- Qlt_alt.
    assert (E : inject_Z z - inject_Z z == 0) by ring.
    rewrite E. reflexivity. }
  now rewrite H.
Qed.

(** [round2] is within half a hundredth of its argument. *)
Lemma round2_close x : Qabs (round2 x - x) <= 1 # 200.
Proof.
  unfold round2.
  pose proof (round_half_even_close (x * 100)) as H.
  apply Qabs_Qle_condition in H. apply Qabs_Qle_condition.
  set (r := inject_Z (round_half_even (x * 100))) in *.
  assert (E : r / 100 == r * (1 # 100)) by field.
  rewrite E. split; lra.
Qed.

End NumberFacts.

(** ** The store *)

Section StoreFacts.

Lemma find_update_first name f us :
  (forall u, username (f u) = username u) ->
  find (fun u => String.eqb (username u) name) (update_first name f us)
  = option_map f (find (fun u => String.eqb (username u) name) us).
Proof.
  intros Hf. induction us as [|u us IH]; simpl; [reflexivity|].
  destruct (String.eqb (username u) name) eqn:E; simpl.
  - now rewrite Hf, E.
  - now rewrite E.
Qed.


(** What [get_user_config_from_db] reads for a logged-in user. *)
Lemma get_user_config_logged_in w :
  mongo_up w = true ->
  current_username w <> EmptyString ->
  exists c, get_user_config_from_db w = (Return (stored_assets w, c), w).
Proof.
  intros Hup Hname.
  unfold get_user_config_from_db, bind, session_username, find_one, ret.
  apply String.eqb_neq in Hname. rewrite Hname, Hup.
  unfold stored_assets, stored_user.
  destruct (find _ (users_collection w)) as [u|]; eauto.
Qed.

(** With the server down, or nobody logged in, the page sees no holdings
    of the store. *)
Lemma get_user_config_cases w :
  (exists e, get_user_config_from_db w = (Raise e, w))
  \/ (exists c, get_user_config_from_db w = (Return ([], c), w))
  \/ (exists c, get_user_config_from_db w = (Return (stored_assets w, c), w)
                /\ mongo_up w = true).
Proof.
  unfold get_user_config_from_db, bind, session_username, find_one, ret.
  destruct (String.eqb (current_username w) "") eqn:E.
  - right. left. eauto.
  - destruct (mongo_up w) eqn:Hup.
    + right. right. unfold stored_assets, stored_user.
      destruct (find _ (users_collection w)) as [u|]; eauto.
    + left. eauto.
Qed.

Lemma stored_assets_after_set w a :
  stored_user w <> None ->
  stored_assets
    {| users_collection :=
         update_first (current_username w) (set_assets_info a) (users_collection w);
       current_username := current_username w;
       mongo_up := mongo_up w;
       shown := shown w |} = a.
Proof.
  unfold stored_assets, stored_user. simpl. intros Hu.
  rewrite find_update_first by reflexivity.
  destruct (find _ (users_collection w)); [reflexivity|contradiction].
Qed.

Lemma stored_assets_shown w us n :
  stored_assets
    {| users_collection := us; current_username := current_username w;
       mongo_up := mongo_up w; shown := n |}
  = stored_assets
      {| users_collection := us; current_username := current_username w;
         mongo_up := mongo_up w; shown := shown w |}.
Proof. reflexivity. Qed.

Lemma stored_user_of_assets w k :
  Dict.mem k (stored_assets w) = true -> stored_user w <> None.
Proof.
  unfold stored_assets. destruct (stored_user w); [discriminate|].
  simpl. discriminate.
Qed.

End StoreFacts.

(** C9.  Adding a holding under a name that the portfolio already has does
    not fail: for a logged-in user and a reachable server,
    [add_asset_to_db] returns [True] and shows the success message, the
    stored record of that name is the new one, every other holding is
    stored as it was, and no name is added or lost. *)
Theorem add_asset_existing_name_replaces
    (w : world) (name : string) (new_info old_info : asset_info) :
  mongo_up w = true ->
  current_username w <> EmptyString ->
  Dict.get name (stored_assets w) = Some old_info ->
  let result := add_asset_to_db [(name, new_info)] w in
  fst result = Return true
  /\ shown (snd result) = shown w ++ [OkAssetAdded]
  /\ Dict.get name (stored_assets (snd result)) = Some new_info
  /\ (forall other, other <> name ->
        Dict.get other (stored_assets (snd result))
        = Dict.get other (stored_assets w))
  /\ Dict.keys (stored_assets (snd result)) = Dict.keys (stored_assets w).
Proof.
  intros Hup Hname Hold result.
  destruct (get_user_config_logged_in w Hup Hname) as [c Hcfg].
  assert (Huser : stored_user w <> None).
  { apply (stored_user_of_assets w name). unfold Dict.mem. now rewrite Hold. }
  assert (Hres : result
    = (Return true,
       {| users_collection :=
            update_first (current_username w)
              (set_assets_info (Dict.update (stored_assets w) [(name, new_info)]))
              (users_collection w);
          current_username := current_username w;
          mongo_up := mongo_up w;
          shown := shown w ++ [OkAssetAdded] |})).
  { unfold result, add_asset_to_db, try_except, bind.
    rewrite Hcfg. simpl. unfold update_one. rewrite Hup. reflexivity. }
  rewrite Hres. simpl fst. simpl snd.
  rewrite stored_assets_shown, stored_assets_after_set by assumption.
  repeat split.
  - apply DictFacts.get_set_same.
  - intros other Hne. now apply DictFacts.get_set_other.
  - apply DictFacts.keys_set_present.
    apply DictFacts.in_keys_get. congruence.
Qed.

(** Adding 十年国债 again, as a fund of 10 shares. *)
Lemma add_asset_existing_name_replaces_witness :
  mongo_up sample_world = true
  /\ current_username sample_world <> EmptyString
  /\ Dict.get "十年国债" (stored_assets sample_world)
     = Some (sample_asset etf 600 "债券-利率/国债")
  /\ fst (add_asset_to_db [("十年国债"%string, sample_asset fund 10 "债券-信用/信用")]
            sample_world) = Return true.
Proof.
  split; [reflexivity|]. split; [discriminate|]. split; [reflexivity|].
  apply (add_asset_existing_name_replaces sample_world "十年国债"
           (sample_asset fund 10 "债券-信用/信用")
           (sample_asset etf 600 "债券-利率/国债"));
    [reflexivity|discriminate|reflexivity].
Defined.

(** C10.  For a logged-in user and a reachable server,
    [delete_asset_from_db] removes exactly the named holding when the
    portfolio has it (it returns [True], the name is gone and every other
    holding is stored as it was); when the portfolio does not have it, it
    returns [False], shows the error, and the collection is what it was. *)
Theorem delete_asset_exact (w : world) (name : string) :
  mongo_up w = true ->
  current_username w <> EmptyString ->
  let result := delete_asset_from_db name w in
  if Dict.mem name (stored_assets w) then
    fst result = Return true
    /\ Dict.get name (stored_assets (snd result)) = None
    /\ (forall other, other <> name ->
          Dict.get other (stored_assets (snd result))
          = Dict.get other (stored_assets w))
  else
    fst result = Return false
    /\ users_collection (snd result) = users_collection w
    /\ shown (snd result) = shown w ++ [ErrAssetMissing].
Proof.
  intros Hup Hname result.
  destruct (get_user_config_logged_in w Hup Hname) as [c Hcfg].
  destruct (Dict.mem name (stored_assets w)) eqn:Hmem.
  - assert (Huser : stored_user w <> None)
      by (now apply (stored_user_of_assets w name)).
    assert (Hres : result
      = (Return true,
         {| users_collection :=
              update_first (current_username w)
                (set_assets_info (Dict.del name (stored_assets w)))
                (users_collection w);
            current_username := current_username w;
            mongo_up := mongo_up w;
            shown := shown w ++ [OkAssetDeleted name] |})).
    { unfold result, delete_asset_from_db, try_except, bind.
      rewrite Hcfg. simpl. rewrite Hmem. simpl.
      unfold update_one. rewrite Hup. reflexivity. }
    rewrite Hres. simpl fst. simpl snd.
    rewrite stored_assets_shown, stored_assets_after_set by assumption.
    repeat split.
    + apply DictFacts.get_del_same.
    + intros other Hne. now apply DictFacts.get_del_other.
  - unfold result, delete_asset_from_db, try_except, bind.
    rewrite Hcfg. simpl. rewrite Hmem. simpl. auto.
Qed.

(** Deleting 活期, which the sample portfolio holds. *)
Lemma delete_asset_exact_witness :
  mongo_up sample_world = true
  /\ current_username sample_world <> EmptyString
  /\ fst (delete_asset_from_db "活期" sample_world) = Return true.
Proof.
  split; [reflexivity|]. split; [discriminate|].
  apply (delete_asset_exact sample_world "活期"); [reflexivity|discriminate].
Defined.

(** Whatever the state of the session and of the server, a delete that does
    not find the name writes nothing. *)
Lemma delete_asset_missing_no_write (w : world) (name : string) :
  Dict.mem name (stored_assets w) = false ->
  fst (delete_asset_from_db name w) = Return false
  /\ users_collection (snd (delete_asset_from_db name w)) = users_collection w.
Proof.
  intros Hmem.
  unfold delete_asset_from_db, try_except, bind.
  destruct (get_user_config_cases w) as [[e H]|[[c H]|[c [H Hup]]]]; rewrite H; simpl.
  - auto.
  - auto.
  - rewrite Hmem. simpl. auto.
Qed.

(** ** Saving the hierarchy *)

Section SaveFacts.

Lemma minor_total_ok_test data :
  Qle_bool (0.99 * ratio data) (py_sum (Dict.values (subcategories data)))
  && Qle_bool (py_sum (Dict.values (subcategories data))) (1.01 * ratio data) = true
  <-> minor_total_ok data.
Proof.
  unfold minor_total_ok, minor_total.
  rewrite andb_true_iff, !Qle_bool_iff. reflexivity.
Qed.

Lemma InvariantA_test categories :
  Qle_bool 0.99 (major_total categories)
  && Qle_bool (major_total categories) 1.01 = true
  <-> InvariantA categories.
Proof.
  unfold InvariantA. rewrite andb_true_iff, !Qle_bool_iff. reflexivity.
Qed.

Lemma check_minor_totals_None categories :
  check_minor_totals categories = None <-> InvariantB categories.
Proof.
  unfold InvariantB.
  induction categories as [|[major_name data] rest IH]; simpl.
  - split; [constructor|reflexivity].
  - destruct (Qle_bool _ _ && Qle_bool _ _) eqn:E.
    + apply minor_total_ok_test in E. rewrite IH. split.
      * intros H. now constructor.
      * intros H. now inversion H.
    + split; [discriminate|]. intros H. inversion H as [|? ? Hok _]; subst.
      simpl in Hok. apply minor_total_ok_test in Hok. congruence.
Qed.

Lemma check_minor_totals_Some categories message :
  check_minor_totals categories = Some message ->
  exists before major_name data after,
    categories = before ++ (major_name, data) :: after
    /\ InvariantB before
    /\ ~ minor_total_ok data
    /\ message = ErrMinorTotal major_name (percent0 (ratio data))
                   (percent0 (minor_total data)).
Proof.
  induction categories as [|[major_name data] rest IH]; simpl; [discriminate|].
  destruct (Qle_bool _ _ && Qle_bool _ _) eqn:E.
  - intros H. destruct (IH H) as (before & m & d & after & -> & HB & Hbad & ->).
    exists ((major_name, data) :: before), m, d, after.
    repeat split; try assumption.
    constructor; [|exact HB]. simpl. now apply minor_total_ok_test.
  - intros H. injection H as <-.
    exists [], major_name, data, rest. repeat split.
    + constructor.
    + intros Hok. apply minor_total_ok_test in Hok. congruence.
Qed.


(** The three ways a save ends when the server answers. *)
Lemma save_categories_cases w categories :
  mongo_up w = true ->
  (InvariantA categories /\ InvariantB categories
   /\ save_categories_to_db categories w
      = (Return true,
         {| users_collection :=
              update_first (current_username w) (set_categories categories)
                (users_collection w);
            current_username := current_username w;
            mongo_up := mongo_up w;
            shown := shown w ++ [OkCategoriesSaved] |}))
  \/ (exists message,
        reports_first_violation categories message
        /\ ~ (InvariantA categories /\ InvariantB categories)
        /\ save_categories_to_db categories w
           = (Return false,
              {| users_collection := users_collection w;
                 current_username := current_username w;
                 mongo_up := mongo_up w;
                 shown := shown w ++ [message] |})).
Proof.
  intros Hup.
  unfold save_categories_to_db, try_except, bind.
  fold (major_total categories).
  destruct (Qle_bool 0.99 (major_total categories)
            && Qle_bool (major_total categories) 1.01) eqn:EA; simpl.
  - apply InvariantA_test in EA.
    destruct (check_minor_totals categories) as [message|] eqn:EB; simpl.
    + right. exists message.
      pose proof (check_minor_totals_Some _ _ EB) as Hsome.
      split; [right; split; assumption|]. split; [|reflexivity].
      intros [_ HB]. apply check_minor_totals_None in HB. congruence.
    + left. apply check_minor_totals_None in EB.
      unfold update_one. rewrite Hup. auto.
  - right. exists (ErrMajorTotal (percent2 (major_total categories))).
    assert (HA : ~ InvariantA categories).
    { intros HA. apply InvariantA_test in HA. congruence. }
    split; [left; split; [assumption|reflexivity]|].
    split; [tauto|reflexivity].
Qed.

End SaveFacts.




(** ** Loops that fill a dictionary *)

Section FillFacts.
Context {V W : Type}.
Variable f : string -> W -> V.

Let step (acc : Dict.t V) (item : string * W) : Dict.t V :=
  Dict.set (fst item) (f (fst item) (snd item)) acc.

Let image (items : list (string * W)) : list (string * V) :=
  map (fun item => (fst item, f (fst item) (snd item))) items.

Lemma fold_set_update items acc :
  fold_left step items acc = Dict.update acc (image items).
Proof.
  unfold Dict.update. revert acc.
  induction items as [|item items IH]; simpl; intros acc; [reflexivity|].
  apply IH.
Qed.

Lemma image_keys items : Dict.keys (image items) = map fst items.
Proof. unfold Dict.keys, image. rewrite map_map. reflexivity. Qed.

(** With distinct keys the loop's result is the image of the items, in
    their order. *)
Lemma fold_set_map items :
  NoDup (map fst items) ->
  fold_left step items [] = image items.
Proof.
  intros Hnd. rewrite fold_set_update.
  apply (DictFacts.update_fresh []). simpl. now rewrite image_keys.
Qed.

Lemma get_image items k :
  Dict.get k (image items) = option_map (f k) (Dict.get k items).
Proof.
  induction items as [|[k0 w0] items IH]; simpl; [reflexivity|].
  destruct (String.eqb k k0) eqn:E; [|exact IH].
  apply String.eqb_eq in E. now subst.
Qed.

End FillFacts.

Section AnalysisFacts.

Lemma get_keyed_map {T : Type} (g : string -> T) (ks : list string) (k : string) :
  Dict.get k (map (fun k0 => (k0, g k0)) ks)
  = if in_dec string_dec k ks then Some (g k) else None.
Proof.
  induction ks as [|k0 ks IH]; simpl; [reflexivity|].
  destruct (String.eqb k k0) eqn:E.
  - apply String.eqb_eq in E. subst.
    destruct (string_dec k0 k0); [reflexivity|contradiction].
  - apply String.eqb_neq in E. rewrite IH.
    destruct (string_dec k0 k); [congruence|].
    destruct (in_dec string_dec k ks); reflexivity.
Qed.

(** The groups of [groupby]: a key that no row has is absent, a key that
    some row has carries the sum of its rows. *)
Lemma groupby_sum_get key df k :
  Dict.get k (groupby_sum key df)
  = if in_dec string_dec k (map key df)
    then Some (py_sum (map df_value (filter (fun r => String.eqb (key r) k) df)))
    else None.
Proof.
  unfold groupby_sum.
  rewrite (get_keyed_map
             (fun k0 => py_sum (map df_value (filter (fun r => String.eqb (key r) k0) df)))).
  destruct (in_dec string_dec k (nodup string_dec (map key df))) as [H|H];
    destruct (in_dec string_dec k (map key df)) as [H'|H']; try reflexivity.
  - apply nodup_In in H. contradiction.
  - exfalso. apply H. now apply nodup_In.
Qed.


Lemma fold_left_pair {X Y T : Type} (g : X -> T -> X) (h : Y -> T -> Y)
    (items : list T) (x : X) (y : Y) :
  fold_left (fun acc item => (g (fst acc) item, h (snd acc) item)) items (x, y)
  = (fold_left g items x, fold_left h items y).
Proof.
  revert x y. induction items as [|item items IH]; simpl; intros x y;
    [reflexivity|apply IH].
Qed.

(** With distinct target keys, the two dictionaries of [diff_loop] have one
    entry per target, in the order of the targets. *)
Lemma diff_loop_map total summary targets :
  NoDup (Dict.keys targets) ->
  diff_loop total summary targets
  = (map (fun item => (fst item, get0 (fst item) summary - total * snd item)) targets,
     map (fun item =>
            (fst item,
             if negb (Qeq_bool (total * snd item) 0)
             then (get0 (fst item) summary - total * snd item) / (total * snd item) * 100
             else 0))
         targets).
Proof.
  intros Hnd. unfold diff_loop.
  rewrite (fold_left_pair
             (fun acc item => Dict.set (fst item)
                                (get0 (fst item) summary - total * snd item) acc)
             (fun acc item => Dict.set (fst item)
                                (if negb (Qeq_bool (total * snd item) 0)
                                 then (get0 (fst item) summary - total * snd item)
                                      / (total * snd item) * 100
                                 else 0) acc)).
  f_equal.
  - apply (fold_set_map (fun k tar => get0 k summary - total * tar)). exact Hnd.
  - apply (fold_set_map
             (fun k tar => if negb (Qeq_bool (total * tar) 0)
                           then (get0 k summary - total * tar) / (total * tar) * 100
                           else 0)).
    exact Hnd.
Qed.

Lemma diff_loop_ratio_get total summary targets k tar :
  NoDup (Dict.keys targets) ->
  Dict.get k targets = Some tar ->
  Dict.get k (snd (diff_loop total summary targets))
  = Some (if negb (Qeq_bool (total * tar) 0)
          then (get0 k summary - total * tar) / (total * tar) * 100
          else 0).
Proof.
  intros Hnd Hget. rewrite diff_loop_map by assumption. simpl.
  rewrite (get_image
             (fun k tar => if negb (Qeq_bool (total * tar) 0)
                           then (get0 k summary - total * tar) / (total * tar) * 100
                           else 0)).
  now rewrite Hget.
Qed.

Lemma diff_loop_diff_get total summary targets k tar :
  NoDup (Dict.keys targets) ->
  Dict.get k targets = Some tar ->
  Dict.get k (fst (diff_loop total summary targets))
  = Some (get0 k summary - total * tar).
Proof.
  intros Hnd Hget. rewrite diff_loop_map by assumption. simpl.
  rewrite (get_image (fun k tar => get0 k summary - total * tar)).
  now rewrite Hget.
Qed.

(** The flattened hierarchy is a dictionary: its keys are distinct. *)
Lemma flatten_major_NoDup categories :
  NoDup (Dict.keys (fst (flatten_categories categories))).
Proof. simpl. apply DictFacts.NoDup_keys_of_items. Qed.

Lemma fold_set_keyed {T V : Type} (g : T -> string) (h : T -> V)
    (items : list T) (acc : Dict.t V) :
  fold_left (fun acc item => Dict.set (g item) (h item) acc) items acc
  = Dict.update acc (map (fun item => (g item, h item)) items).
Proof.
  unfold Dict.update. revert acc.
  induction items as [|item items IH]; simpl; intros acc; [reflexivity|apply IH].
Qed.

Lemma flatten_sub_update categories :
  snd (flatten_categories categories)
  = Dict.update []
      (flat_map
         (fun major => map (fun minor => (full_name (fst major) (fst minor), snd minor))
                           (subcategories (snd major)))
         categories).
Proof.
  simpl. generalize (@nil (string * Q)) as acc.
  induction categories as [|major rest IH]; simpl; intros acc; [reflexivity|].
  rewrite IH. unfold Dict.update at 2. rewrite fold_left_app.
  rewrite (fold_set_keyed (fun minor => full_name (fst major) (fst minor)) snd).
  reflexivity.
Qed.

Lemma flatten_sub_NoDup categories :
  NoDup (Dict.keys (snd (flatten_categories categories))).
Proof.
  rewrite flatten_sub_update. apply DictFacts.NoDup_keys_update. constructor.
Qed.




Lemma table_rows_row total summary targets diff diff_ratio k row :
  In (k, row) (table_rows total summary targets diff diff_ratio) ->
  current_amount row = round2 (get0 k summary)
  /\ diff_ratio_shown row = round2 (get0 k diff_ratio)
  /\ In k (Dict.keys targets).
Proof.
  unfold table_rows. intros Hin. apply in_map_iff in Hin.
  destruct Hin as (k0 & Heq & Hk). injection Heq as <- <-. simpl. auto.
Qed.

Lemma round2_zero : round2 0 == 0.
Proof. reflexivity. Qed.

End AnalysisFacts.

(** ** Deviation analysis *)

(** C4.  A target whose value is zero, because its ratio or the portfolio's
    total is, has deviation percentage 0 at both levels: the entry of
    [sub_diff_ratio] (of [cls_diff_ratio] for a major category) is 0, and so
    is the figure in its row of the table.  The guarded division is never
    evaluated. *)
Theorem deviation_pct_zero_target
    (df : list df_row) (categories : Dict.t major_data) (k : string) (tar : Q) :
  total_value df * tar == 0 ->
  (Dict.get k (snd (flatten_categories categories)) = Some tar ->
     Dict.get k (sub_diff_ratio df (snd (flatten_categories categories))) = Some 0
     /\ forall row,
          In (k, row) (sub_table df (snd (flatten_categories categories))) ->
          diff_ratio_shown row == 0)
  /\ (Dict.get k (fst (flatten_categories categories)) = Some tar ->
        Dict.get k (cls_diff_ratio df (fst (flatten_categories categories))) = Some 0
        /\ forall row,
             In (k, row) (cls_table df (fst (flatten_categories categories))) ->
             diff_ratio_shown row == 0).
Proof.
  intros Hzero. apply Qeq_bool_iff in Hzero.
  split; intros Hget.
  - assert (H0 : Dict.get k (sub_diff_ratio df (snd (flatten_categories categories)))
                 = Some 0).
    { unfold sub_diff_ratio.
      rewrite (diff_loop_ratio_get _ _ _ k tar (flatten_sub_NoDup categories) Hget).
      now rewrite Hzero. }
    split; [exact H0|].
    intros row Hin. unfold sub_table in Hin.
    apply table_rows_row in Hin. destruct Hin as (_ & -> & _).
    unfold get0. rewrite H0. apply round2_zero.
  - assert (H0 : Dict.get k (cls_diff_ratio df (fst (flatten_categories categories)))
                 = Some 0).
    { unfold cls_diff_ratio.
      rewrite (diff_loop_ratio_get _ _ _ k tar (flatten_major_NoDup categories) Hget).
      now rewrite Hzero. }
    split; [exact H0|].
    intros row Hin. unfold cls_table in Hin.
    apply table_rows_row in Hin. destruct Hin as (_ & -> & _).
    unfold get0. rewrite H0. apply round2_zero.
Qed.

(** A subcategory of ratio zero in a portfolio worth 800. *)
Lemma deviation_pct_zero_target_witness :
  total_value sample_df * 0 == 0
  /\ Dict.get "A-y" (sub_diff_ratio sample_df (snd (flatten_categories sample_categories_zero)))
     = Some 0.
Proof.
  split; [reflexivity|].
  apply (deviation_pct_zero_target sample_df sample_categories_zero "A-y" 0);
    reflexivity.
Defined.


Lemma NoDup_by_nodup (l : list string) : nodup string_dec l = l -> NoDup l.
Proof. intros H. rewrite <- H. apply NoDup_nodup. Qed.


(** ** The threshold policy *)

Section ThresholdFacts.



Lemma get_In {T : Type} (d : Dict.t T) k v :
  Dict.get k d = Some v -> In (k, v) d.
Proof.
  induction d as [|[k0 v0] d IH]; simpl; [discriminate|].
  destruct (String.eqb k k0) eqn:E.
  - apply String.eqb_eq in E. intros H. injection H as <-. subst. now left.
  - intros H. right. now apply IH.
Qed.

Lemma In_get {T : Type} (d : Dict.t T) k v :
  NoDup (Dict.keys d) -> In (k, v) d -> Dict.get k d = Some v.
Proof.
  unfold Dict.keys. induction d as [|[k0 v0] d IH]; simpl; intros Hnd Hin; [tauto|].
  inversion Hnd as [|? ? Hnin Hnd']; subst.
  destruct Hin as [Heq|Hin].
  - injection Heq as -> ->. now rewrite String.eqb_refl.
  - destruct (String.eqb k k0) eqn:E; [|now apply IH].
    apply String.eqb_eq in E. subst. exfalso. apply Hnin.
    apply in_map_iff. exists (k0, v). auto.
Qed.










End ThresholdFacts.




(** ** Sizing the trades *)

Section SizingFacts.

Lemma Qfloor_unique (z : Z) (q : Q) :
  inject_Z z <= q -> q < inject_Z z + 1 -> Qfloor q = z.
Proof.
  intros Hlo Hhi.
  pose proof (Qfloor_le q) as Hf.
  pose proof (Qlt_floor q) as Hc. rewrite inject_Z_plus in Hc.
  assert (H1 : inject_Z 1 == 1) by reflexivity.
  assert (Ha : (Qfloor q < z + 1)%Z).
  { rewrite Zlt_Qlt, inject_Z_plus. lra. }
  assert (Hb : (z < Qfloor q + 1)%Z).
  { rewrite Zlt_Qlt, inject_Z_plus. lra. }
  lia.
Qed.

(** [x // 100 * 100] is the multiple of 100 just below or at [x]. *)
Lemma floor_lot_bounds x :
  floordiv x 100 * 100 <= x /\ x < floordiv x 100 * 100 + 100.
Proof.
  destruct (floordiv_bounds x 100) as [Hlo Hhi].
  assert (E : x / 100 == x * (1 # 100)) by field.
  rewrite E in Hlo, Hhi. split; lra.
Qed.

Lemma floordiv_negative x : x < 0 -> floordiv x 100 <= -1.
Proof.
  intros Hneg. destruct (floor_lot_bounds x) as [Hlo _].
  revert Hlo. unfold floordiv. generalize (Qfloor (x / 100)). intros z Hlo.
  assert (Hz : (z < 0)%Z).
  { rewrite Zlt_Qlt. change (inject_Z 0) with 0. lra. }
  assert (Hz' : (z <= -1)%Z) by lia.
  rewrite Zle_Qle in Hz'. exact Hz'.
Qed.

Lemma floordiv_nonnegative x : 0 <= x -> 0 <= floordiv x 100.
Proof.
  intros Hpos. destruct (floor_lot_bounds x) as [_ Hhi].
  revert Hhi. unfold floordiv. generalize (Qfloor (x / 100)). intros z Hhi.
  assert (Hz : (-1 < z)%Z).
  { rewrite Zlt_Qlt. change (inject_Z (-1)) with (-1). lra. }
  assert (Hz' : (0 <= z)%Z) by lia.
  rewrite Zle_Qle in Hz'. exact Hz'.
Qed.

(** A purchase of a lot-traded holding is the raw delta rounded down to a
    multiple of 100. *)
Lemma adjust_shares_etf_buy base current :
  0 < base ->
  adjust_shares etf base current = floordiv base 100 * 100
  /\ adjust_shares etf base current <= base
  /\ base - 100 < adjust_shares etf base current.
Proof.
  intros Hpos. unfold adjust_shares.
  apply Qltb_lt in Hpos. rewrite Hpos.
  destruct (floor_lot_bounds base). repeat split; lra.
Qed.

(** A sale of a lot-traded holding is a multiple of 100 that sells less
    than the raw delta, and never more than is held. *)
Lemma adjust_shares_etf_sell base current :
  base < 0 ->
  0 <= current ->
  let adjust := adjust_shares etf base current in
  (exists lots : Z, adjust == inject_Z lots * 100)
  /\ base < adjust
  /\ adjust <= 0
  /\ - adjust <= current.
Proof.
  intros Hneg Hcur. unfold adjust_shares.
  assert (Hnp : Qltb 0 base = false) by (apply Qltb_ge; lra).
  apply Qltb_lt in Hneg as Hb. rewrite Hnp, Hb.
  destruct (floor_lot_bounds base) as [Hlo Hhi].
  destruct (floor_lot_bounds current) as [Hclo Hchi].
  pose proof (floordiv_negative base Hneg) as Hf.
  pose proof (floordiv_nonnegative current Hcur) as Hc0.
  set (adjust := (floordiv base 100 + 1) * 100) in *.
  assert (Hadj : base < adjust /\ adjust <= 0) by (unfold adjust; split; lra).
  destruct (Qltb current (Qabs adjust)) eqn:Hcap.
  - repeat split.
    + exists (- Qfloor (current / 100))%Z. unfold floordiv.
      rewrite inject_Z_opp. ring.
    + apply Qltb_lt in Hcap. rewrite Qabs_neg in Hcap by tauto. lra.
    + lra.
    + lra.
  - repeat split; try tauto.
    + exists (Qfloor (base / 100) + 1)%Z. unfold adjust, floordiv.
      rewrite inject_Z_plus. reflexivity.
    + apply Qltb_ge in Hcap. rewrite Qabs_neg in Hcap by tauto. exact Hcap.
Qed.

(** When the raw delta of a sale is not a whole number of lots, its
    magnitude is rounded down to a multiple of 100 and capped at the
    quantity held rounded down to a multiple of 100. *)
Lemma adjust_shares_etf_sell_partial_lot base current :
  base < 0 ->
  0 <= current ->
  ~ inject_Z (Qfloor (base / 100)) == base / 100 ->
  - adjust_shares etf base current == lot_sell_as_specified base current.
Proof.
  intros Hneg Hcur Hfrac.
  assert (Hfloor : floordiv (Qabs base) 100 == - (floordiv base 100 + 1)).
  { unfold floordiv.
    pose proof (Qfloor_le (base / 100)) as Hlo.
    pose proof (Qlt_floor (base / 100)) as Hhi. rewrite inject_Z_plus in Hhi.
    assert (H1 : inject_Z 1 == 1) by reflexivity.
    set (f := Qfloor (base / 100)) in *.
    assert (Hstrict : inject_Z f < base / 100).
    { apply Qle_lteq in Hlo. destruct Hlo; [assumption|contradiction]. }
    assert (E : Qabs base / 100 == - (base / 100)).
    { rewrite Qabs_neg by lra. field. }
    rewrite (Qfloor_unique (- (f + 1))%Z (Qabs base / 100)).
    - rewrite inject_Z_opp, inject_Z_plus. lra.
    - rewrite E, inject_Z_opp, inject_Z_plus. lra.
    - rewrite E, inject_Z_opp, inject_Z_plus. lra. }
  unfold lot_sell_as_specified. rewrite Hfloor.
  destruct (adjust_shares_etf_sell base current Hneg Hcur) as (_ & _ & Hle0 & Hheld).
  revert Hle0 Hheld. unfold adjust_shares.
  assert (Hnp : Qltb 0 base = false) by (apply Qltb_ge; lra).
  apply Qltb_lt in Hneg as Hb. rewrite Hnp, Hb.
  destruct (floor_lot_bounds current) as [Hclo Hchi].
  set (adjust := (floordiv base 100 + 1) * 100).
  destruct (Qltb current (Qabs adjust)) eqn:Hcap; intros Hle0 Hheld.
  - apply Qltb_lt in Hcap.
    assert (Ha : adjust <= 0).
    { pose proof (floordiv_negative base Hneg). unfold adjust. lra. }
    rewrite Qabs_neg in Hcap by assumption.
    rewrite Q.min_r; [ring|]. unfold adjust in Hcap. lra.
  - apply Qltb_ge in Hcap. rewrite Qabs_neg in Hcap by assumption.
    rewrite Q.min_l; [unfold adjust; ring|].
    (* both sides are multiples of 100 and the left one is at most [current] *)
    unfold adjust in Hcap.
    assert (Hz : (- (Qfloor (base / 100) + 1) <= Qfloor (current / 100))%Z).
    { assert (Hin : inject_Z (- (Qfloor (base / 100) + 1)) <= current / 100).
      { rewrite inject_Z_opp, inject_Z_plus. unfold floordiv in Hcap.
        assert (H1 : inject_Z 1 == 1) by reflexivity.
        assert (E : current / 100 == current * (1 # 100)) by field.
        rewrite E. lra. }
      apply Qfloor_resp_le in Hin. now rewrite Qfloor_Z in Hin. }
    rewrite Zle_Qle, inject_Z_opp, inject_Z_plus in Hz.
    assert (H1 : inject_Z 1 == 1) by reflexivity.
    unfold floordiv. lra.
Qed.

(** The figures of the specification: a raw purchase of 237 gives 200, a raw
    sale of 237 out of 150 held gives a sale of 100. *)
Lemma adjust_shares_etf_examples :
  adjust_shares etf 237 1000 == 200 /\ adjust_shares etf (-237) 150 == -100.
Proof. split; reflexivity. Qed.

(** The share delta of a continuous holding is within half a hundredth of
    the raw delta unless the cap applies, and the cap is the quantity held
    rounded to two decimals. *)
Lemma adjust_shares_fund_rounds base current :
  ~ base == 0 ->
  adjust_shares fund base current = round2 base
  \/ (base < 0 /\ current < Qabs (round2 base)
      /\ adjust_shares fund base current = - round2 current).
Proof.
  intros Hne. unfold adjust_shares.
  destruct (Qltb 0 base) eqn:Hp; [now left|].
  apply Qltb_ge in Hp.
  assert (Hneg : base < 0).
  { apply Qle_lteq in Hp. destruct Hp as [H|H]; [assumption|contradiction]. }
  apply Qltb_lt in Hneg as Hb. rewrite Hb.
  destruct (Qltb current (Qabs (round2 base))) eqn:Hcap; [|now left].
  right. apply Qltb_lt in Hcap. auto.
Qed.

(** When the quantity held is a whole number of hundredths, a sale of a
    continuous holding never exceeds it. *)
Lemma adjust_shares_fund_sell_held base current (hundredths : Z) :
  base < 0 ->
  current == inject_Z hundredths / 100 ->
  - adjust_shares fund base current <= current.
Proof.
  intros Hneg Hcur. unfold adjust_shares.
  assert (Hnp : Qltb 0 base = false) by (apply Qltb_ge; lra).
  apply Qltb_lt in Hneg as Hb. rewrite Hnp, Hb.
  destruct (Qltb current (Qabs (round2 base))) eqn:Hcap.
  - assert (E : round2 current == current).
    { unfold round2.
      assert (E1 : current * 100 == inject_Z hundredths) by (rewrite Hcur; field).
      assert (E2 : round_half_even (current * 100) = hundredths).
      { rewrite <- (round_half_even_inject hundredths).
        unfold round_half_even.
        assert (Ef : Qfloor (current * 100) = Qfloor (inject_Z hundredths))
          by (now rewrite E1).
        rewrite Ef.
        assert (Ec : (current * 100 - inject_Z (Qfloor (inject_Z hundredths)) ?= 1 # 2)
                     = (inject_Z hundredths - inject_Z (Qfloor (inject_Z hundredths))
                        ?= 1 # 2)).
        { now rewrite E1. }
        now rewrite Ec. }
      rewrite E2. symmetry. exact Hcur. }
    rewrite Qopp_involutive. rewrite E. apply Qle_refl.
  - apply Qltb_ge in Hcap.
    pose proof (Qle_Qabs (- round2 base)) as Habs.
    rewrite Qabs_opp in Habs. lra.
Qed.

(** The figure of the specification: a raw delta of -12.345 with 10.00 held
    gives a sale of 10.00. *)
Lemma adjust_shares_fund_example : adjust_shares fund (-12.345) 10 == -10.
Proof. reflexivity. Qed.

End SizingFacts.

(** C2.  The code at an input where it departs from the claim.  The sample
    portfolio holds 600 shares of an exchange-traded fund worth 1 each in
    [A-x] and 200 in cash in [B-y], with targets of one half each.  The
    value to shed in [A-x] is 200, so the raw delta of the fund is -200
    shares, a whole number of lots with 600 held: the claim's sale is 200,
    the page suggests 100. *)
Theorem etf_sale_of_whole_lots_is_one_lot_short :
  let targets := snd (flatten_categories sample_categories) in
  let result := compute_portfolio price_one price_one sample_assets sample_categories in
  build_df sample_assets
    (current_values (A (fetch_prices price_one price_one sample_assets)) sample_assets)
  = Some sample_df
  /\ (exists e, Dict.get "A-x" (adjustment sample_df targets) = Some e
                /\ adj_diff_value e == -200)
  /\ suggested_lines (advice_of result) "A-x"
     = [Reduce "E" (Finite 100) (Finite 100.00) 600.00]
  /\ adjust_shares etf (-200) 600 == -100
  /\ lot_sell_as_specified (-200) 600 == 200.
Proof.
  cbv zeta. split; [vm_compute; reflexivity|].
  split.
  - eexists. split; [vm_compute; reflexivity|]. vm_compute. reflexivity.
  - split; [vm_compute; reflexivity|]. split; reflexivity.
Qed.

(** C7.  The code at an input where it departs from the claim.  The
    portfolio holds 100 in cash in [A-x] and 10.006 shares of an open-ended
    fund worth 1 each in [A-y], whose target ratio is zero: the whole
    position is to be sold.  The raw delta -10.006 is rounded to -10.01,
    which exceeds the holding, and the cap is the holding rounded to two
    decimals, 10.01 again: the page suggests selling more than is held. *)
Theorem fund_sale_can_exceed_holding :
  let result :=
    compute_portfolio price_one price_one sample_assets_fund sample_categories_zero in
  suggested_lines (advice_of result) "A-y"
  = [Reduce "F" (Finite 10.01) (Finite 10.01) 10.01]
  /\ adjust_shares fund (-10.006) 10.006 == -10.01
  /\ 10.006 < 10.01.
Proof.
  cbv zeta. split; [vm_compute; reflexivity|]. split; reflexivity.
Qed.

(** ** Valuation *)

Section ValuationFacts.

Variable get_fund_price : string -> outcome price_frame.
Variable get_price : string -> outcome price_frame.

Let fetch := fetch_asset get_fund_price get_price.
Let lookup := price_lookup get_fund_price get_price.

Lemma fetch_asset_cases acc name info :
  match lookup info with
  | None => fetch acc (name, info) = acc
  | Some (Return frame) =>
      fetch acc (name, info)
      = {| A := Dict.set name frame (A acc);
           warnings := warnings acc;
           requests := requests acc ++ [(type info, code info)] |}
  | Some (Raise e) =>
      fetch acc (name, info)
      = {| A := A acc;
           warnings := warnings acc ++ [WarnPrice name e];
           requests := requests acc ++ [(type info, code info)] |}
  end.
Proof.
  unfold lookup, price_lookup, fetch, fetch_asset. simpl.
  destruct (type info); simpl.
  - destruct (get_fund_price (code info)); reflexivity.
  - destruct (get_price (code info)); reflexivity.
  - reflexivity.
Qed.

(** No request is sent for a cash holding: the requests are those of the
    other holdings, in order. *)
Lemma fetch_requests assets acc :
  requests (fold_left fetch assets acc)
  = requests acc
    ++ map (fun item => (type (snd item), code (snd item)))
           (filter (fun item => negb (asset_type_eqb (type (snd item)) cash)) assets).
Proof.
  revert acc. induction assets as [|[name info] assets IH]; simpl; intros acc.
  - now rewrite app_nil_r.
  - rewrite IH. pose proof (fetch_asset_cases acc name info) as Hc.
    unfold lookup, price_lookup in Hc.
    destruct (type info) eqn:Ht; simpl in *; rewrite ?Ht in *; simpl.
    + destruct (get_fund_price (code info)); rewrite Hc; simpl;
        now rewrite <- app_assoc.
    + destruct (get_price (code info)); rewrite Hc; simpl;
        now rewrite <- app_assoc.
    + now rewrite Hc.
Qed.

Lemma fetch_A_other assets acc name :
  ~ In name (Dict.keys assets) ->
  Dict.get name (A (fold_left fetch assets acc)) = Dict.get name (A acc).
Proof.
  revert acc. induction assets as [|[n info] assets IH]; simpl; intros acc Hnin;
    [reflexivity|].
  rewrite IH by tauto.
  pose proof (fetch_asset_cases acc n info) as Hc.
  destruct (lookup info) as [[frame|e]|]; rewrite Hc; simpl; try reflexivity.
  apply DictFacts.get_set_other. intros ->. tauto.
Qed.

(** The frame kept for a holding is the one its request returned. *)
Lemma fetch_A_get assets acc name info :
  NoDup (Dict.keys assets) ->
  In (name, info) assets ->
  Dict.get name (A acc) = None ->
  Dict.get name (A (fold_left fetch assets acc))
  = match lookup info with
    | Some (Return frame) => Some frame
    | _ => None
    end.
Proof.
  revert acc. induction assets as [|[n i] assets IH]; simpl; intros acc Hnd Hin Hacc;
    [tauto|].
  inversion Hnd as [|? ? Hnin Hnd']; subst.
  destruct Hin as [Heq|Hin].
  - injection Heq as -> ->.
    rewrite fetch_A_other by assumption.
    pose proof (fetch_asset_cases acc name info) as Hc.
    destruct (lookup info) as [[frame|e]|]; rewrite Hc; simpl; try assumption.
    apply DictFacts.get_set_same.
  - apply IH; try assumption.
    assert (Hne : name <> n).
    { intros ->. apply Hnin. apply in_map_iff. exists (n, info). auto. }
    pose proof (fetch_asset_cases acc n i) as Hc.
    destruct (lookup i) as [[frame|e]|]; rewrite Hc; simpl; try assumption.
    now rewrite DictFacts.get_set_other.
Qed.

Lemma fetch_warnings_grow assets acc n :
  In n (warnings acc) -> In n (warnings (fold_left fetch assets acc)).
Proof.
  revert acc. induction assets as [|[name info] assets IH]; simpl; intros acc Hin;
    [assumption|].
  apply IH. pose proof (fetch_asset_cases acc name info) as Hc.
  destruct (lookup info) as [[frame|e]|]; rewrite Hc; simpl; try assumption.
  apply in_or_app. now left.
Qed.

(** A request that raises is reported. *)
Lemma fetch_warnings_raise assets acc name info e :
  In (name, info) assets ->
  lookup info = Some (Raise e) ->
  In (WarnPrice name e) (warnings (fold_left fetch assets acc)).
Proof.
  revert acc. induction assets as [|[n i] assets IH]; simpl; intros acc Hin Hl;
    [tauto|].
  destruct Hin as [Heq|Hin]; [|now apply IH].
  injection Heq as -> ->.
  apply fetch_warnings_grow.
  pose proof (fetch_asset_cases acc name info) as Hc. rewrite Hl in Hc.
  rewrite Hc. simpl. apply in_or_app. right. now left.
Qed.

(** The only warnings are those of requests that raised. *)
Lemma fetch_warnings_only assets acc n :
  In n (warnings (fold_left fetch assets acc)) ->
  In n (warnings acc)
  \/ exists name info e,
       In (name, info) assets /\ lookup info = Some (Raise e) /\ n = WarnPrice name e.
Proof.
  revert acc. induction assets as [|[name info] assets IH]; simpl; intros acc Hin;
    [auto|].
  apply IH in Hin. destruct Hin as [Hin|(n0 & i0 & e0 & H1 & H2 & H3)].
  - pose proof (fetch_asset_cases acc name info) as Hc.
    destruct (lookup info) as [[frame|e]|] eqn:Hl; rewrite Hc in Hin; simpl in Hin;
      auto.
    apply in_app_or in Hin. destruct Hin as [Hin|[<-|[]]]; [auto|].
    right. exists name, info, e. auto.
  - right. exists n0, i0, e0. auto.
Qed.

End ValuationFacts.

Lemma current_values_map A assets :
  NoDup (Dict.keys assets) ->
  current_values A assets
  = map (fun item => (fst item, current_value A (fst item) (snd item))) assets.
Proof. intros Hnd. apply (fold_set_map (current_value A)). exact Hnd. Qed.

(** Every holding is valued: cash at its quantity, without a request; a
    holding whose request raised at 0, with a warning; a holding whose
    request returned no data at 0; any other at its quantity times the
    latest close.  What one request does has no bearing on the others. *)
Lemma valuation_of_holding get_fund_price get_price assets name info :
  NoDup (Dict.keys assets) ->
  Dict.get name assets = Some info ->
  let prices := fetch_prices get_fund_price get_price assets in
  exists v,
    Dict.get name (current_values (A prices) assets) = Some v
    /\ match price_lookup get_fund_price get_price info with
       | None => v = amount info /\ type info = cash
       | Some (Raise e) => v = 0 /\ In (WarnPrice name e) (warnings prices)
       | Some (Return []) => v = 0
       | Some (Return frame) => v = amount info * latest_close frame
       end.
Proof.
  intros Hnd Hget prices.
  exists (current_value (A prices) name info). split.
  - rewrite current_values_map by assumption.
    rewrite (get_image (current_value (A prices))). now rewrite Hget.
  - apply get_In in Hget.
    pose proof (fetch_A_get get_fund_price get_price assets
                  {| A := []; warnings := []; requests := [] |} name info
                  Hnd Hget eq_refl) as HA.
    fold (fetch_prices get_fund_price get_price assets) in HA. fold prices in HA.
    unfold current_value. unfold price_lookup in *.
    destruct (type info) eqn:Ht.
    + destruct (get_fund_price (code info)) as [frame|e] eqn:Hl; rewrite HA.
      * destruct frame; reflexivity.
      * split; [reflexivity|].
        apply (fetch_warnings_raise get_fund_price get_price assets _ name info e Hget).
        unfold price_lookup. now rewrite Ht, Hl.
    + destruct (get_price (code info)) as [frame|e] eqn:Hl; rewrite HA.
      * destruct frame; reflexivity.
      * split; [reflexivity|].
        apply (fetch_warnings_raise get_fund_price get_price assets _ name info e Hget).
        unfold price_lookup. now rewrite Ht, Hl.
    + auto.
Qed.

(** C5.  The code at an input where it departs from the claim.  The price
    source of the exchange-traded fund [E] returns no data: [E] is valued
    at 0, the cash holding at its quantity, the total is 200 and the report
    is produced, but no warning is shown, where a request that raises
    shows one. *)
Theorem no_data_price_is_silent :
  let prices := fetch_prices price_one price_no_data sample_assets in
  let result := compute_portfolio price_one price_no_data sample_assets sample_categories in
  price_lookup price_one price_no_data (sample_asset etf 600 "A-x") = Some (Return [])
  /\ current_values (A prices) sample_assets = [("E"%string, 0); ("C"%string, 200)]
  /\ warnings prices = []
  /\ fst result = []
  /\ (exists r, snd result = Some r /\ report_total r == 200)
  /\ warnings (fetch_prices price_one price_fails sample_assets)
     = [WarnPrice "E" "ConnectionError"].
Proof.
  cbv zeta. repeat split; try (vm_compute; reflexivity).
  eexists. split; [vm_compute; reflexivity|]. vm_compute. reflexivity.
Qed.

(** ** The blocks of the rebalancing section *)

Section BlockFacts.








End BlockFacts.




(** * Further properties of the page *)

(** ** Runs of the store's functions *)

Section RunFacts.

Lemma find_update_first_other name other f us :
  (forall u, username (f u) = username u) ->
  other <> name ->
  find (fun u => String.eqb (username u) other) (update_first name f us)
  = find (fun u => String.eqb (username u) other) us.
Proof.
  intros Hf Hne. induction us as [|u us IH]; simpl; [reflexivity|].
  destruct (String.eqb (username u) name) eqn:E; simpl.
  - rewrite Hf. apply String.eqb_eq in E.
    assert (Ho : String.eqb (username u) other = false).
    { apply String.eqb_neq. congruence. }
    now rewrite Ho.
  - destruct (String.eqb (username u) other); [reflexivity|exact IH].
Qed.

Lemma get_user_config_value w :
  mongo_up w = true ->
  current_username w <> EmptyString ->
  get_user_config_from_db w
  = (Return (stored_assets w, effective_categories w), w).
Proof.
  intros Hup Hname.
  unfold get_user_config_from_db, bind, session_username, find_one, ret.
  apply String.eqb_neq in Hname. rewrite Hname, Hup.
  unfold stored_assets, effective_categories, stored_categories, stored_user.
  destruct (find _ (users_collection w)) as [u|]; reflexivity.
Qed.

Lemma get_user_config_down w :
  mongo_up w = false ->
  current_username w <> EmptyString ->
  get_user_config_from_db w = (Raise server_error, w).
Proof.
  intros Hup Hname.
  unfold get_user_config_from_db, bind, session_username, find_one, ret.
  apply String.eqb_neq in Hname. now rewrite Hname, Hup.
Qed.

Lemma add_asset_run w asset_data :
  mongo_up w = true ->
  current_username w <> EmptyString ->
  add_asset_to_db asset_data w
  = (Return true,
     notify [OkAssetAdded]
       (written (set_assets_info (Dict.update (stored_assets w) asset_data)) w)).
Proof.
  intros Hup Hname. unfold add_asset_to_db, try_except, bind.
  rewrite (get_user_config_value w Hup Hname).
  unfold session_username, update_one, st_show, ret, notify, written.
  destruct w as [us name up sh]. simpl in Hup. subst up. reflexivity.
Qed.

Lemma update_asset_run w asset_data :
  mongo_up w = true ->
  current_username w <> EmptyString ->
  update_asset_in_db asset_data w
  = (Return true,
     notify [OkAssetUpdated]
       (written (set_assets_info (Dict.update (stored_assets w) asset_data)) w)).
Proof.
  intros Hup Hname. unfold update_asset_in_db, try_except, bind.
  rewrite (get_user_config_value w Hup Hname).
  unfold session_username, update_one, st_show, ret, notify, written.
  destruct w as [us name up sh]. simpl in Hup. subst up. reflexivity.
Qed.

Lemma delete_asset_run w asset_name :
  mongo_up w = true ->
  current_username w <> EmptyString ->
  delete_asset_from_db asset_name w
  = if Dict.mem asset_name (stored_assets w) then
      (Return true,
       notify [OkAssetDeleted asset_name]
         (written (set_assets_info (Dict.del asset_name (stored_assets w))) w))
    else (Return false, notify [ErrAssetMissing] w).
Proof.
  intros Hup Hname. unfold delete_asset_from_db, try_except, bind.
  rewrite (get_user_config_value w Hup Hname).
  unfold session_username, update_one, st_show, ret, notify, written. cbn [fst].
  destruct (Dict.mem asset_name (stored_assets w)); [|reflexivity].
  destruct w as [us name up sh]. simpl in Hup. subst up. reflexivity.
Qed.


Lemma stored_user_written f w :
  (forall u, username (f u) = username u) ->
  stored_user (written f w) = option_map f (stored_user w).
Proof.
  intros Hf. unfold stored_user, written. simpl. now apply find_update_first.
Qed.

Lemma stored_assets_written a w :
  stored_user w <> None ->
  stored_assets (written (set_assets_info a) w) = a.
Proof.
  intros Hu. unfold stored_assets.
  rewrite stored_user_written by reflexivity.
  destruct (stored_user w); [reflexivity|contradiction].
Qed.

Lemma stored_assets_notify ns w : stored_assets (notify ns w) = stored_assets w.
Proof. reflexivity. Qed.

Lemma stored_categories_written_assets a w :
  stored_categories (written (set_assets_info a) w) = stored_categories w.
Proof.
  unfold stored_categories. rewrite stored_user_written by reflexivity.
  destruct (stored_user w); reflexivity.
Qed.




End RunFacts.

Section DictMore.
Context {V : Type}.

Lemma set_absent (k : string) (v : V) (d : Dict.t V) :
  Dict.get k d = None -> Dict.set k v d = d ++ [(k, v)].
Proof.
  induction d as [|[k0 v0] d IH]; simpl; [reflexivity|].
  destruct (String.eqb k k0); [discriminate|].
  intros H. now rewrite IH.
Qed.

Lemma del_app (k : string) (d e : Dict.t V) :
  Dict.del k (d ++ e) = Dict.del k d ++ Dict.del k e.
Proof. unfold Dict.del. apply filter_app. Qed.

Lemma del_set_absent (k : string) (v : V) (d : Dict.t V) :
  Dict.get k d = None -> Dict.del k (Dict.set k v d) = d.
Proof.
  intros H. rewrite set_absent by assumption.
  rewrite del_app, DictFacts.del_absent by assumption.
  unfold Dict.del. simpl. rewrite String.eqb_refl. simpl. apply app_nil_r.
Qed.

Lemma length_del_present (k : string) (d : Dict.t V) :
  NoDup (Dict.keys d) ->
  Dict.get k d <> None ->
  S (List.length (Dict.del k d)) = List.length d.
Proof.
  unfold Dict.keys. induction d as [|[k0 v0] d IH]; simpl; intros Hnd Hget;
    [contradiction|].
  inversion Hnd as [|? ? Hnin Hnd']; subst.
  destruct (String.eqb k k0) eqn:E; simpl.
  - apply String.eqb_eq in E. subst k0. f_equal.
    f_equal. apply DictFacts.del_absent.
    destruct (Dict.get k d) eqn:G; [|reflexivity].
    exfalso. apply Hnin. apply DictFacts.in_keys_get. congruence.
  - f_equal. now apply IH.
Qed.

Lemma length_set_present (k : string) (v : V) (d : Dict.t V) :
  List.length (Dict.set k v d) = 
  if Dict.mem k d then List.length d else S (List.length d).
Proof.
  unfold Dict.mem. induction d as [|[k0 v0] d IH]; simpl; [reflexivity|].
  destruct (String.eqb k k0); simpl; [reflexivity|].
  rewrite IH. destruct (Dict.get k d); reflexivity.
Qed.

End DictMore.

(** ** The store: round trips, failures and isolation *)


Lemma DEFAULT_CATEGORIES_valid :
  InvariantA DEFAULT_CATEGORIES /\ InvariantB DEFAULT_CATEGORIES.
Proof.
  split.
  - split; vm_compute; discriminate.
  - repeat constructor; vm_compute; discriminate.
Qed.


(** X2.  A holding added under a name the portfolio does not have goes to
    the end of the stored holdings, which are otherwise as they were, and is
    what the next load returns. *)
Theorem add_new_name_appends (w : world) (name : string) (info : asset_info) :
  mongo_up w = true ->
  current_username w <> EmptyString ->
  stored_user w <> None ->
  Dict.get name (stored_assets w) = None ->
  let added := add_asset_to_db [(name, info)] w in
  fst added = Return true
  /\ stored_assets (snd added) = stored_assets w ++ [(name, info)]
  /\ exists c,
       get_user_config_from_db (snd added)
       = (Return (stored_assets w ++ [(name, info)], c), snd added).
Proof.
  intros Hup Hname Huser Hnew added. unfold added.
  rewrite (add_asset_run w _ Hup Hname). cbn [fst snd].
  assert (Hst : stored_assets
                  (notify [OkAssetAdded]
                     (written (set_assets_info
                                 (Dict.update (stored_assets w) [(name, info)])) w))
                = stored_assets w ++ [(name, info)]).
  { rewrite stored_assets_notify, stored_assets_written by assumption.
    unfold Dict.update. simpl. now apply set_absent. }
  split; [reflexivity|]. split; [exact Hst|].
  eexists. rewrite get_user_config_value by assumption. rewrite Hst. reflexivity.
Qed.

Lemma add_new_name_appends_witness :
  mongo_up sample_world = true
  /\ current_username sample_world <> EmptyString
  /\ stored_user sample_world <> None
  /\ Dict.get "黄金ETF" (stored_assets sample_world) = None
  /\ fst (add_asset_to_db [("黄金ETF"%string, sample_asset etf 100 "商品-黄金")]
            sample_world) = Return true.
Proof.
  split; [reflexivity|]. split; [discriminate|]. split; [discriminate|].
  split; [reflexivity|].
  apply (add_new_name_appends sample_world "黄金ETF"
           (sample_asset etf 100 "商品-黄金") eq_refl);
    [discriminate|discriminate|reflexivity].
Defined.

(** X3.  Deleting a holding that was just added under a new name undoes the
    addition: both calls succeed and the stored holdings are exactly what
    they were, in the same order. *)
Theorem add_then_delete_restores (w : world) (name : string) (info : asset_info) :
  mongo_up w = true ->
  current_username w <> EmptyString ->
  stored_user w <> None ->
  Dict.get name (stored_assets w) = None ->
  let added := add_asset_to_db [(name, info)] w in
  let deleted := delete_asset_from_db name (snd added) in
  fst added = Return true
  /\ fst deleted = Return true
  /\ stored_assets (snd deleted) = stored_assets w
  /\ shown (snd deleted) = shown w ++ [OkAssetAdded; OkAssetDeleted name].
Proof.
  intros Hup Hname Huser Hnew added deleted.
  unfold deleted, added.
  rewrite (add_asset_run w _ Hup Hname). cbn [fst snd].
  set (w1 := notify [OkAssetAdded]
               (written (set_assets_info
                           (Dict.update (stored_assets w) [(name, info)])) w)).
  assert (Hst : stored_assets w1 = Dict.set name info (stored_assets w)).
  { unfold w1. rewrite stored_assets_notify, stored_assets_written by assumption.
    reflexivity. }
  assert (Huser1 : stored_user w1 <> None).
  { unfold w1. change (stored_user (notify [OkAssetAdded] ?x)) with (stored_user x).
    rewrite stored_user_written by reflexivity.
    destruct (stored_user w); [discriminate|contradiction]. }
  rewrite (delete_asset_run w1 name Hup Hname).
  assert (Hmem : Dict.mem name (stored_assets w1) = true).
  { rewrite Hst. unfold Dict.mem. now rewrite DictFacts.get_set_same. }
  rewrite Hmem. cbn [fst snd].
  split; [reflexivity|]. split; [reflexivity|]. split.
  - rewrite stored_assets_notify, stored_assets_written by assumption.
    rewrite Hst. now apply del_set_absent.
  - unfold w1. simpl. now rewrite <- app_assoc.
Qed.

Lemma add_then_delete_restores_witness :
  mongo_up sample_world = true
  /\ current_username sample_world <> EmptyString
  /\ stored_user sample_world <> None
  /\ Dict.get "黄金ETF" (stored_assets sample_world) = None
  /\ fst (add_asset_to_db [("黄金ETF"%string, sample_asset etf 100 "商品-黄金")]
            sample_world) = Return true.
Proof.
  split; [reflexivity|]. split; [discriminate|]. split; [discriminate|].
  split; [reflexivity|].
  apply (add_then_delete_restores sample_world "黄金ETF"
           (sample_asset etf 100 "商品-黄金") eq_refl);
    [discriminate|discriminate|reflexivity].
Defined.

Section FailureFacts.

Lemma add_asset_down w asset_data :
  mongo_up w = false ->
  add_asset_to_db asset_data w = (Return false, notify [ErrAddFailed server_error] w).
Proof.
  intros Hup. unfold add_asset_to_db, try_except, bind,
    get_user_config_from_db, bind, session_username, find_one, update_one, ret.
  destruct (String.eqb (current_username w) ""); rewrite Hup; reflexivity.
Qed.

Lemma update_asset_down w asset_data :
  mongo_up w = false ->
  update_asset_in_db asset_data w
  = (Return false, notify [ErrUpdateFailed server_error] w).
Proof.
  intros Hup. unfold update_asset_in_db, try_except, bind,
    get_user_config_from_db, bind, session_username, find_one, update_one, ret.
  destruct (String.eqb (current_username w) ""); rewrite Hup; reflexivity.
Qed.

Lemma delete_asset_down w asset_name :
  mongo_up w = false ->
  current_username w <> EmptyString ->
  delete_asset_from_db asset_name w
  = (Return false, notify [ErrDeleteFailed server_error] w).
Proof.
  intros Hup Hname. unfold delete_asset_from_db, try_except, bind.
  now rewrite (get_user_config_down w Hup Hname).
Qed.


(** After any of the four writers, the collection is what it was or has had
    the first document of the session's user rewritten in one field. *)
Lemma add_asset_collection w asset_data :
  users_collection (snd (add_asset_to_db asset_data w)) = users_collection w
  \/ exists a, users_collection (snd (add_asset_to_db asset_data w))
               = update_first (current_username w) (set_assets_info a)
                   (users_collection w).
Proof.
  destruct (mongo_up w) eqn:Hup; [|left; now rewrite add_asset_down].
  right. destruct (String.eqb (current_username w) "") eqn:E.
  - exists (Dict.update [] asset_data).
    unfold add_asset_to_db, try_except, bind, get_user_config_from_db, bind,
      session_username, find_one, update_one, st_show, ret.
    rewrite E, Hup. reflexivity.
  - apply String.eqb_neq in E. exists (Dict.update (stored_assets w) asset_data).
    rewrite (add_asset_run w asset_data Hup E). reflexivity.
Qed.

Lemma update_asset_collection w asset_data :
  users_collection (snd (update_asset_in_db asset_data w)) = users_collection w
  \/ exists a, users_collection (snd (update_asset_in_db asset_data w))
               = update_first (current_username w) (set_assets_info a)
                   (users_collection w).
Proof.
  destruct (mongo_up w) eqn:Hup; [|left; now rewrite update_asset_down].
  right. destruct (String.eqb (current_username w) "") eqn:E.
  - exists (Dict.update [] asset_data).
    unfold update_asset_in_db, try_except, bind, get_user_config_from_db, bind,
      session_username, find_one, update_one, st_show, ret.
    rewrite E, Hup. reflexivity.
  - apply String.eqb_neq in E. exists (Dict.update (stored_assets w) asset_data).
    rewrite (update_asset_run w asset_data Hup E). reflexivity.
Qed.

Lemma delete_asset_collection w asset_name :
  users_collection (snd (delete_asset_from_db asset_name w)) = users_collection w
  \/ exists a, users_collection (snd (delete_asset_from_db asset_name w))
               = update_first (current_username w) (set_assets_info a)
                   (users_collection w).
Proof.
  unfold delete_asset_from_db, try_except, bind.
  destruct (get_user_config_cases w) as [[e H]|[[c H]|[c [H Hup]]]]; rewrite H;
    cbn [fst snd].
  - now left.
  - now left.
  - destruct (Dict.mem asset_name (stored_assets w)); [|now left].
    right. exists (Dict.del asset_name (stored_assets w)).
    unfold session_username, update_one. cbn. rewrite Hup. reflexivity.
Qed.

Lemma save_categories_collection w categories :
  users_collection (snd (save_categories_to_db categories w)) = users_collection w
  \/ users_collection (snd (save_categories_to_db categories w))
     = update_first (current_username w) (set_categories categories)
         (users_collection w).
Proof.
  destruct (mongo_up w) eqn:Hup.
  - destruct (save_categories_cases w categories Hup)
      as [(_ & _ & Hres)|(message & _ & _ & Hres)]; rewrite Hres; auto.
  - unfold save_categories_to_db, try_except, bind.
    destruct (negb _); [now left|].
    destruct (check_minor_totals categories); [now left|].
    unfold session_username, update_one. cbn. rewrite Hup. now left.
Qed.

End FailureFacts.





(** X6.  None of the four writers touches the document of another user:
    whatever the state of the session and of the server, the document found
    under any other name is the same before and after. *)
Theorem other_users_untouched
    (w : world) (other : string) (asset_data : Dict.t asset_info)
    (asset_name : string) (categories : Dict.t major_data) :
  other <> current_username w ->
  document_of other (snd (add_asset_to_db asset_data w)) = document_of other w
  /\ document_of other (snd (update_asset_in_db asset_data w)) = document_of other w
  /\ document_of other (snd (delete_asset_from_db asset_name w)) = document_of other w
  /\ document_of other (snd (save_categories_to_db categories w)) = document_of other w.
Proof.
  intros Hne. unfold document_of.
  split; [|split; [|split]].
  - destruct (add_asset_collection w asset_data) as [->|[a ->]]; [reflexivity|].
    now apply find_update_first_other.
  - destruct (update_asset_collection w asset_data) as [->|[a ->]]; [reflexivity|].
    now apply find_update_first_other.
  - destruct (delete_asset_collection w asset_name) as [->|[a ->]]; [reflexivity|].
    now apply find_update_first_other.
  - destruct (save_categories_collection w categories) as [->| ->]; [reflexivity|].
    now apply find_update_first_other.
Qed.

Lemma other_users_untouched_witness :
  "alice"%string <> current_username sample_world_stranger
  /\ document_of "alice"
       (snd (add_asset_to_db [("黄金ETF"%string, sample_asset etf 100 "商品-黄金")]
               sample_world_stranger))
     = document_of "alice" sample_world_stranger.
Proof.
  split; [discriminate|].
  apply (other_users_untouched sample_world_stranger "alice"
           [("黄金ETF"%string, sample_asset etf 100 "商品-黄金")] "" []).
  discriminate.
Defined.

(** X7.  Each writer changes one field of the user's document: adding,
    updating and deleting holdings leave the stored hierarchy as it was, and
    saving a hierarchy leaves the stored holdings as they were, in every
    state of the session and of the server. *)
Theorem writers_change_one_field
    (w : world) (asset_data : Dict.t asset_info) (asset_name : string)
    (categories : Dict.t major_data) :
  stored_categories (snd (add_asset_to_db asset_data w)) = stored_categories w
  /\ stored_categories (snd (update_asset_in_db asset_data w)) = stored_categories w
  /\ stored_categories (snd (delete_asset_from_db asset_name w)) = stored_categories w
  /\ stored_assets (snd (save_categories_to_db categories w)) = stored_assets w.
Proof.
  assert (Hname : forall op : py bool,
            (forall w0, current_username (snd (op w0)) = current_username w0) ->
            current_username (snd (op w)) = current_username w) by auto.
  assert (Hcat : forall w' a,
            current_username w' = current_username w ->
            users_collection w'
            = update_first (current_username w) (set_assets_info a) (users_collection w) ->
            stored_categories w' = stored_categories w).
  { intros w' a Hn Hu. unfold stored_categories, stored_user. rewrite Hn, Hu.
    rewrite find_update_first by reflexivity.
    destruct (find _ (users_collection w)); reflexivity. }
  assert (Hsame : forall w',
            current_username w' = current_username w ->
            users_collection w' = users_collection w ->
            stored_categories w' = stored_categories w
            /\ stored_assets w' = stored_assets w).
  { intros w' Hn Hu. unfold stored_categories, stored_assets, stored_user.
    now rewrite Hn, Hu. }
  assert (Nadd : current_username (snd (add_asset_to_db asset_data w))
                 = current_username w).
  { destruct (mongo_up w) eqn:Hup; [|now rewrite add_asset_down].
    destruct (String.eqb (current_username w) "") eqn:E.
    - unfold add_asset_to_db, try_except, bind, get_user_config_from_db, bind,
        session_username, find_one, update_one, st_show, ret.
      rewrite E, Hup. reflexivity.
    - apply String.eqb_neq in E. now rewrite (add_asset_run w asset_data Hup E). }
  assert (Nupd : current_username (snd (update_asset_in_db asset_data w))
                 = current_username w).
  { destruct (mongo_up w) eqn:Hup; [|now rewrite update_asset_down].
    destruct (String.eqb (current_username w) "") eqn:E.
    - unfold update_asset_in_db, try_except, bind, get_user_config_from_db, bind,
        session_username, find_one, update_one, st_show, ret.
      rewrite E, Hup. reflexivity.
    - apply String.eqb_neq in E. now rewrite (update_asset_run w asset_data Hup E). }
  assert (Ndel : current_username (snd (delete_asset_from_db asset_name w))
                 = current_username w).
  { unfold delete_asset_from_db, try_except, bind.
    destruct (get_user_config_cases w) as [[e H]|[[c H]|[c [H Hup]]]]; rewrite H;
      cbn [fst snd]; try reflexivity.
    destruct (Dict.mem asset_name (stored_assets w)); [|reflexivity].
    unfold session_username, update_one. cbn. rewrite Hup. reflexivity. }
  assert (Nsave : current_username (snd (save_categories_to_db categories w))
                  = current_username w).
  { destruct (mongo_up w) eqn:Hup.
    - destruct (save_categories_cases w categories Hup)
        as [(_ & _ & Hres)|(message & _ & _ & Hres)]; now rewrite Hres.
    - unfold save_categories_to_db, try_except, bind.
      destruct (negb _); [reflexivity|].
      destruct (check_minor_totals categories); [reflexivity|].
      unfold session_username, update_one. cbn. rewrite Hup. reflexivity. }
  split; [|split; [|split]].
  - destruct (add_asset_collection w asset_data) as [H|[a H]].
    + now apply Hsame.
    + now apply (Hcat _ a).
  - destruct (update_asset_collection w asset_data) as [H|[a H]].
    + now apply Hsame.
    + now apply (Hcat _ a).
  - destruct (delete_asset_collection w asset_name) as [H|[a H]].
    + now apply Hsame.
    + now apply (Hcat _ a).
  - destruct (save_categories_collection w categories) as [H|H].
    + now apply Hsame.
    + unfold stored_assets, stored_user. rewrite Nsave, H.
      rewrite find_update_first by reflexivity.
      destruct (find _ (users_collection w)); reflexivity.
Qed.

(** ** The edit form *)

Section EditFacts.

Lemma stored_user_after_write a ns w :
  stored_user w <> None ->
  stored_user (notify ns (written (set_assets_info a) w)) <> None.
Proof.
  intros Hu. change (stored_user (notify ns ?x)) with (stored_user x).
  rewrite stored_user_written by reflexivity.
  destruct (stored_user w); [discriminate|contradiction].
Qed.

Lemma try_update_run w a :
  mongo_up w = true ->
  try_except
    (name <- session_username ;;
     update_one name (set_assets_info a) ;;;
     st_show OkAssetUpdated)
    (fun e => st_show (ErrUpdateFailed e)) w
  = (Return tt, notify [OkAssetUpdated] (written (set_assets_info a) w)).
Proof.
  intros Hup. unfold try_except, bind, session_username, update_one, st_show,
    notify, written.
  destruct w as [us name up sh]. simpl in Hup. subst up. reflexivity.
Qed.

(** The run of the handler when the name was changed and the old name is
    stored. *)
Lemma submit_edit_renamed_run w original_name new_name new_info :
  mongo_up w = true ->
  current_username w <> EmptyString ->
  original_name <> new_name ->
  Dict.mem original_name (stored_assets w) = true ->
  let w1 := notify [OkAssetDeleted original_name]
              (written (set_assets_info (Dict.del original_name (stored_assets w))) w) in
  submit_edit original_name new_name new_info w
  = (Return tt,
     notify [OkAssetUpdated]
       (written
          (set_assets_info
             (Dict.update (Dict.del original_name (stored_assets w))
                [(new_name, new_info)])) w1)).
Proof.
  intros Hup Hname Hne Hmem w1.
  assert (Huser : stored_user w <> None)
    by (now apply (stored_user_of_assets w original_name)).
  unfold submit_edit.
  apply String.eqb_neq in Hne. rewrite Hne. cbn [negb].
  unfold bind at 1. unfold bind at 1.
  rewrite (delete_asset_run w original_name Hup Hname), Hmem. fold w1.
  rewrite (get_user_config_value w1 Hup Hname). cbn [fst].
  assert (Hst : stored_assets w1 = Dict.del original_name (stored_assets w)).
  { unfold w1. now rewrite stored_assets_notify, stored_assets_written. }
  rewrite Hst. now apply try_update_run.
Qed.

End EditFacts.

(** X8.  Renaming a holding in the edit form to a name the portfolio does
    not have: the old record is deleted, the new one goes to the end of the
    stored holdings, the others keep their records and order, and the page
    shows the delete message and then the update message. *)
Theorem edit_rename_moves_to_end
    (w : world) (original_name new_name : string) (old_info new_info : asset_info) :
  mongo_up w = true ->
  current_username w <> EmptyString ->
  original_name <> new_name ->
  Dict.get original_name (stored_assets w) = Some old_info ->
  Dict.get new_name (stored_assets w) = None ->
  let edited := submit_edit original_name new_name new_info w in
  fst edited = Return tt
  /\ stored_assets (snd edited)
     = Dict.del original_name (stored_assets w) ++ [(new_name, new_info)]
  /\ Dict.get original_name (stored_assets (snd edited)) = None
  /\ shown (snd edited) = shown w ++ [OkAssetDeleted original_name; OkAssetUpdated].
Proof.
  intros Hup Hname Hne Hold Hnew edited.
  assert (Hmem : Dict.mem original_name (stored_assets w) = true).
  { unfold Dict.mem. now rewrite Hold. }
  assert (Huser : stored_user w <> None)
    by (now apply (stored_user_of_assets w original_name)).
  unfold edited.
  rewrite (submit_edit_renamed_run w original_name new_name new_info Hup Hname Hne Hmem).
  cbn [fst snd].
  assert (Hst : stored_assets
                  (notify [OkAssetUpdated]
                     (written
                        (set_assets_info
                           (Dict.update (Dict.del original_name (stored_assets w))
                              [(new_name, new_info)]))
                        (notify [OkAssetDeleted original_name]
                           (written
                              (set_assets_info
                                 (Dict.del original_name (stored_assets w))) w))))
                = Dict.del original_name (stored_assets w) ++ [(new_name, new_info)]).
  { rewrite stored_assets_notify, stored_assets_written
      by (now apply stored_user_after_write).
    unfold Dict.update. simpl. apply set_absent.
    rewrite DictFacts.get_del_other by congruence. exact Hnew. }
  split; [reflexivity|]. split; [exact Hst|]. split.
  - rewrite Hst.
    assert (Hg : forall (d e : Dict.t asset_info) k,
               Dict.get k (d ++ e)
               = match Dict.get k d with Some v => Some v | None => Dict.get k e end).
    { intros d e k. induction d as [|[k0 v0] d IH]; simpl; [reflexivity|].
      destruct (String.eqb k k0); [reflexivity|exact IH]. }
    rewrite Hg, DictFacts.get_del_same. simpl.
    apply String.eqb_neq in Hne. now rewrite Hne.
  - simpl. now rewrite <- app_assoc.
Qed.

Lemma edit_rename_moves_to_end_witness :
  mongo_up sample_world = true
  /\ current_username sample_world <> EmptyString
  /\ "十年国债"%string <> "国债ETF"%string
  /\ Dict.get "十年国债" (stored_assets sample_world)
     = Some (sample_asset etf 600 "债券-利率/国债")
  /\ Dict.get "国债ETF" (stored_assets sample_world) = None
  /\ fst (submit_edit "十年国债" "国债ETF" (sample_asset etf 700 "债券-利率/国债")
            sample_world) = Return tt.
Proof.
  split; [reflexivity|]. split; [discriminate|]. split; [discriminate|].
  split; [reflexivity|]. split; [reflexivity|].
  apply (edit_rename_moves_to_end sample_world "十年国债" "国债ETF"
           (sample_asset etf 600 "债券-利率/国债")
           (sample_asset etf 700 "债券-利率/国债") eq_refl);
    [discriminate|discriminate|reflexivity|reflexivity].
Defined.

(** X9.  Renaming a holding in the edit form to the name of another holding
    overwrites that holding without notice: afterwards the old name is gone,
    the other name carries the edited record, every third holding is as it
    was, and the portfolio has one holding less. *)
Theorem edit_rename_onto_existing_overwrites
    (w : world) (original_name new_name : string)
    (old_info victim new_info : asset_info) :
  mongo_up w = true ->
  current_username w <> EmptyString ->
  NoDup (Dict.keys (stored_assets w)) ->
  original_name <> new_name ->
  Dict.get original_name (stored_assets w) = Some old_info ->
  Dict.get new_name (stored_assets w) = Some victim ->
  let edited := submit_edit original_name new_name new_info w in
  fst edited = Return tt
  /\ Dict.get original_name (stored_assets (snd edited)) = None
  /\ Dict.get new_name (stored_assets (snd edited)) = Some new_info
  /\ (forall other, other <> original_name -> other <> new_name ->
        Dict.get other (stored_assets (snd edited))
        = Dict.get other (stored_assets w))
  /\ S (List.length (stored_assets (snd edited))) = List.length (stored_assets w).
Proof.
  intros Hup Hname Hnd Hne Hold Hvictim edited.
  assert (Hmem : Dict.mem original_name (stored_assets w) = true).
  { unfold Dict.mem. now rewrite Hold. }
  assert (Huser : stored_user w <> None)
    by (now apply (stored_user_of_assets w original_name)).
  unfold edited.
  rewrite (submit_edit_renamed_run w original_name new_name new_info Hup Hname Hne Hmem).
  cbn [fst snd].
  rewrite stored_assets_notify, stored_assets_written
    by (now apply stored_user_after_write).
  unfold Dict.update. cbn [fold_left fst snd].
  split; [reflexivity|]. split; [|split; [|split]].
  - rewrite DictFacts.get_set_other by assumption. apply DictFacts.get_del_same.
  - apply DictFacts.get_set_same.
  - intros other Ho Hn.
    rewrite DictFacts.get_set_other, DictFacts.get_del_other by assumption.
    reflexivity.
  - rewrite length_set_present.
    assert (Hm : Dict.mem new_name (Dict.del original_name (stored_assets w)) = true).
    { unfold Dict.mem. rewrite DictFacts.get_del_other by congruence.
      now rewrite Hvictim. }
    rewrite Hm. apply length_del_present; [assumption|congruence].
Qed.

Lemma edit_rename_onto_existing_overwrites_witness :
  mongo_up sample_world = true
  /\ current_username sample_world <> EmptyString
  /\ NoDup (Dict.keys (stored_assets sample_world))
  /\ "十年国债"%string <> "活期"%string
  /\ Dict.get "十年国债" (stored_assets sample_world)
     = Some (sample_asset etf 600 "债券-利率/国债")
  /\ Dict.get "活期" (stored_assets sample_world)
     = Some (sample_asset cash 200 "机动-现金")
  /\ fst (submit_edit "十年国债" "活期" (sample_asset etf 600 "债券-利率/国债")
            sample_world) = Return tt.
Proof.
  assert (Hnd : NoDup (Dict.keys (stored_assets sample_world)))
    by (apply NoDup_by_nodup; vm_compute; reflexivity).
  split; [reflexivity|]. split; [discriminate|]. split; [exact Hnd|].
  split; [discriminate|]. split; [reflexivity|]. split; [reflexivity|].
  apply (edit_rename_onto_existing_overwrites sample_world "十年国债" "活期"
           (sample_asset etf 600 "债券-利率/国债")
           (sample_asset cash 200 "机动-现金")
           (sample_asset etf 600 "债券-利率/国债") eq_refl);
    [discriminate|exact Hnd|discriminate|reflexivity|reflexivity].
Defined.

(** X10.  With the server down the handler of the edit form is not
    protected: the read of the configuration is outside any [try], so the
    handler ends with the server's exception, and nothing is written. *)
Theorem edit_with_server_down_raises
    (w : world) (original_name new_name : string) (new_info : asset_info) :
  mongo_up w = false ->
  current_username w <> EmptyString ->
  let edited := submit_edit original_name new_name new_info w in
  fst edited = Raise server_error
  /\ users_collection (snd edited) = users_collection w.
Proof.
  intros Hup Hname edited.
  assert (Hrun : exists ns, edited = (Raise server_error, notify ns w)).
  { unfold edited, submit_edit.
    destruct (negb (String.eqb original_name new_name)).
    - exists [ErrDeleteFailed server_error].
      unfold bind at 1. unfold bind at 1.
      rewrite (delete_asset_down w original_name Hup Hname).
      now rewrite (get_user_config_down (notify [ErrDeleteFailed server_error] w)
                     Hup Hname).
    - exists []. unfold bind at 1.
      rewrite (get_user_config_down w Hup Hname).
      unfold notify. rewrite app_nil_r. now destruct w. }
  destruct Hrun as [ns ->]. split; reflexivity.
Qed.

Lemma edit_with_server_down_raises_witness :
  mongo_up sample_world_down = false
  /\ current_username sample_world_down <> EmptyString
  /\ fst (submit_edit "十年国债" "国债ETF" (sample_asset etf 700 "债券-利率/国债")
            sample_world_down) = Raise server_error.
Proof.
  split; [reflexivity|]. split; [discriminate|].
  apply (edit_with_server_down_raises sample_world_down "十年国债" "国债ETF"
           (sample_asset etf 700 "债券-利率/国债") eq_refl).
  discriminate.
Defined.

(** ** The hierarchy: flattening, validation and edits *)

Section HierarchyFacts.

Lemma flatten_sub_items categories :
  NoDup (declared_sub_keys categories) ->
  snd (flatten_categories categories)
  = flat_map
      (fun major => map (fun minor => (full_name (fst major) (fst minor), snd minor))
                        (subcategories (snd major)))
      categories.
Proof.
  intros Hnd. rewrite flatten_sub_update.
  apply (DictFacts.update_fresh []). simpl.
  assert (Hk : Dict.keys
                 (flat_map
                    (fun major =>
                       map (fun minor => (full_name (fst major) (fst minor), snd minor))
                           (subcategories (snd major)))
                    categories)
               = declared_sub_keys categories).
  { unfold Dict.keys, declared_sub_keys. clear Hnd.
    induction categories as [|major rest IH]; simpl; [reflexivity|].
    rewrite map_app, map_map. simpl. now f_equal. }
  now rewrite Hk.
Qed.

Lemma py_sum_flat_map {T : Type} (g : T -> list Q) (items : list T) :
  py_sum (flat_map g items) == py_sum (map (fun item => py_sum (g item)) items).
Proof.
  induction items as [|item items IH]; simpl; [reflexivity|].
  rewrite py_sum_app, py_sum_cons, IH. reflexivity.
Qed.

Lemma sub_total_by_major categories :
  NoDup (declared_sub_keys categories) ->
  sub_total categories
  == py_sum (map (fun item => minor_total (snd item)) categories).
Proof.
  intros Hnd. unfold sub_total. rewrite flatten_sub_items by assumption.
  unfold Dict.values.
  assert (E : map snd
                (flat_map
                   (fun major =>
                      map (fun minor => (full_name (fst major) (fst minor), snd minor))
                          (subcategories (snd major)))
                   categories)
              = flat_map (fun major => map snd (subcategories (snd major))) categories).
  { clear Hnd. induction categories as [|major rest IH]; simpl; [reflexivity|].
    rewrite map_app, map_map, IH. reflexivity. }
  rewrite E. apply py_sum_flat_map.
Qed.

Lemma minor_totals_bracket categories :
  InvariantB categories ->
  0.99 * major_total categories
  <= py_sum (map (fun item => minor_total (snd item)) categories)
  /\ py_sum (map (fun item => minor_total (snd item)) categories)
     <= 1.01 * major_total categories.
Proof.
  unfold InvariantB, major_total.
  induction categories as [|[name data] rest IH]; simpl; intros HB.
  - split; vm_compute; discriminate.
  - inversion HB as [|? ? Hok Hrest]; subst. simpl in Hok.
    destruct (IH Hrest) as [Hlo Hhi]. destruct Hok as [Hl Hh].
    rewrite !py_sum_cons. split; lra.
Qed.


Lemma py_sum_set_absent (d : Dict.t Q) k v :
  Dict.get k d = None ->
  py_sum (Dict.values (Dict.set k v d)) == py_sum (Dict.values d) + v.
Proof.
  intros H. rewrite set_absent by assumption.
  unfold Dict.values. rewrite map_app, py_sum_app.
  change (map snd [(k, v)]) with [v].
  rewrite py_sum_cons. change (py_sum []) with 0. lra.
Qed.

Lemma py_sum_del_present (d : Dict.t Q) k v :
  NoDup (Dict.keys d) ->
  Dict.get k d = Some v ->
  py_sum (Dict.values (Dict.del k d)) + v == py_sum (Dict.values d).
Proof.
  unfold Dict.keys, Dict.values.
  induction d as [|[k0 v0] d IH]; simpl; intros Hnd Hget; [discriminate|].
  inversion Hnd as [|? ? Hnin Hnd']; subst.
  destruct (String.eqb k k0) eqn:E; simpl.
  - injection Hget as <-. apply String.eqb_eq in E. subst k0.
    rewrite DictFacts.del_absent.
    + rewrite py_sum_cons. lra.
    + destruct (Dict.get k d) eqn:G; [|reflexivity].
      exfalso. apply Hnin. apply DictFacts.in_keys_get. congruence.
  - rewrite !py_sum_cons. rewrite <- (IH Hnd' Hget). 
    fold (Dict.del k d). lra.
Qed.

End HierarchyFacts.

(** X11.  Flattening loses nothing when the keys of the hierarchy are
    distinct: every major category is found under its name with its ratio,
    and every subcategory under [major-minor] with its ratio. *)
Theorem flatten_lookup
    (categories : Dict.t major_data) (major_name : string) (data : major_data) :
  NoDup (declared_major_keys categories) ->
  NoDup (declared_sub_keys categories) ->
  In (major_name, data) categories ->
  Dict.get major_name (fst (flatten_categories categories)) = Some (ratio data)
  /\ forall minor_name minor_ratio,
       In (minor_name, minor_ratio) (subcategories data) ->
       Dict.get (full_name major_name minor_name) (snd (flatten_categories categories))
       = Some minor_ratio.
Proof.
  intros Hmajor Hsub Hin. split.
  - apply In_get; [apply flatten_major_NoDup|].
    simpl. rewrite DictFacts.of_items_NoDup.
    + apply in_map_iff. exists (major_name, data). auto.
    + rewrite map_map. exact Hmajor.
  - intros minor_name minor_ratio Hminor.
    apply In_get; [apply flatten_sub_NoDup|].
    rewrite flatten_sub_items by assumption.
    apply in_flat_map. exists (major_name, data). split; [assumption|].
    apply in_map_iff. exists (minor_name, minor_ratio). auto.
Qed.

Lemma flatten_lookup_witness :
  NoDup (declared_major_keys DEFAULT_CATEGORIES)
  /\ NoDup (declared_sub_keys DEFAULT_CATEGORIES)
  /\ Dict.get "商品" (fst (flatten_categories DEFAULT_CATEGORIES)) = Some 0.10.
Proof.
  assert (Hmajor : NoDup (declared_major_keys DEFAULT_CATEGORIES))
    by (apply NoDup_by_nodup; vm_compute; reflexivity).
  assert (Hsub : NoDup (declared_sub_keys DEFAULT_CATEGORIES))
    by (apply NoDup_by_nodup; vm_compute; reflexivity).
  split; [exact Hmajor|]. split; [exact Hsub|].
  apply (flatten_lookup DEFAULT_CATEGORIES "商品"
           {| ratio := 0.10; subcategories := [("黄金"%string, 0.10)] |} Hmajor Hsub).
  simpl. auto.
Defined.

(** X12.  For a hierarchy with distinct keys that satisfies invariants A and
    B, the flattened major targets add up to the hierarchy's total, between
    99% and 101%, and the flattened subcategory targets add up to between
    98.01% and 102.01%. *)
Theorem valid_hierarchy_totals (categories : Dict.t major_data) :
  NoDup (declared_major_keys categories) ->
  NoDup (declared_sub_keys categories) ->
  InvariantA categories ->
  InvariantB categories ->
  py_sum (Dict.values (fst (flatten_categories categories))) = major_total categories
  /\ 0.99 <= py_sum (Dict.values (fst (flatten_categories categories))) <= 1.01
  /\ 0.9801 <= sub_total categories <= 1.0201.
Proof.
  intros Hmajor Hsub HA HB.
  assert (E : py_sum (Dict.values (fst (flatten_categories categories)))
              = major_total categories).
  { simpl. rewrite DictFacts.of_items_NoDup by (rewrite map_map; exact Hmajor).
    unfold Dict.values, major_total. now rewrite map_map. }
  split; [exact E|]. rewrite E.
  destruct HA as [HA1 HA2]. split; [split; assumption|].
  rewrite (sub_total_by_major categories Hsub).
  destruct (minor_totals_bracket categories HB) as [Hlo Hhi].
  split; lra.
Qed.

Lemma valid_hierarchy_totals_witness :
  NoDup (declared_major_keys DEFAULT_CATEGORIES)
  /\ NoDup (declared_sub_keys DEFAULT_CATEGORIES)
  /\ InvariantA DEFAULT_CATEGORIES
  /\ InvariantB DEFAULT_CATEGORIES
  /\ 0.9801 <= sub_total DEFAULT_CATEGORIES <= 1.0201.
Proof.
  assert (Hmajor : NoDup (declared_major_keys DEFAULT_CATEGORIES))
    by (apply NoDup_by_nodup; vm_compute; reflexivity).
  assert (Hsub : NoDup (declared_sub_keys DEFAULT_CATEGORIES))
    by (apply NoDup_by_nodup; vm_compute; reflexivity).
  destruct DEFAULT_CATEGORIES_valid as [HA HB].
  split; [exact Hmajor|]. split; [exact Hsub|]. split; [exact HA|].
  split; [exact HB|].
  apply (valid_hierarchy_totals DEFAULT_CATEGORIES Hmajor Hsub HA HB).
Defined.



(** X14.  The button 添加大类, for a name that is not empty and not yet a
    major category and a ratio that is not negative: the new category goes
    last with one subcategory 默认小类 of the same ratio, so invariant B
    still holds if it held, and the total of the major ratios grows by the
    new ratio. *)
Theorem add_major_keeps_invariant_B
    (temp_cats : Dict.t major_data) (new_major_name : string) (new_major_ratio : Q) :
  new_major_name <> EmptyString ->
  Dict.get new_major_name temp_cats = None ->
  0 <= new_major_ratio ->
  InvariantB temp_cats ->
  let added :=
    temp_cats
    ++ [(new_major_name,
         {| ratio := new_major_ratio;
            subcategories := [(default_minor, new_major_ratio)] |})] in
  add_major temp_cats new_major_name new_major_ratio = MajorAdded added
  /\ InvariantB added
  /\ major_total added == major_total temp_cats + new_major_ratio.
Proof.
  intros Hname Hnew Hpos HB added. split; [|split].
  - unfold add_major. apply String.eqb_neq in Hname. rewrite Hname.
    unfold Dict.mem. rewrite Hnew. cbn [negb]. f_equal. now apply set_absent.
  - unfold added, InvariantB. apply Forall_app. split; [exact HB|].
    constructor; [|constructor]. unfold minor_total_ok, minor_total. simpl.
    unfold py_sum. simpl. split; lra.
  - unfold added, major_total. rewrite map_app, py_sum_app. simpl.
    rewrite py_sum_cons. change (py_sum []) with 0. lra.
Qed.

Lemma add_major_keeps_invariant_B_witness :
  "房产"%string <> EmptyString
  /\ Dict.get "房产" DEFAULT_CATEGORIES = None
  /\ 0 <= 0.10
  /\ InvariantB DEFAULT_CATEGORIES
  /\ InvariantB
       (DEFAULT_CATEGORIES
        ++ [("房产"%string,
             {| ratio := 0.10; subcategories := [(default_minor, 0.10)] |})]).
Proof.
  destruct DEFAULT_CATEGORIES_valid as [HA HB].
  split; [discriminate|]. split; [reflexivity|]. split; [discriminate|].
  split; [exact HB|].
  apply (add_major_keeps_invariant_B DEFAULT_CATEGORIES "房产" 0.10);
    [discriminate|reflexivity|discriminate|exact HB].
Defined.

(** X15.  Changing the name of a subcategory in its row does not rename it:
    the previous ratio moves to the new name, and the old name is written
    back with the ratio of the row's widget.  Both names are then present,
    every other subcategory is as it was, and the total of the ratios has
    grown by the widget's ratio. *)
Theorem edit_minor_rename_keeps_old_name
    (subcats : Dict.t Q) (minor_name new_minor_name : string)
    (old_ratio new_minor_ratio : Q) :
  NoDup (Dict.keys subcats) ->
  new_minor_name <> minor_name ->
  Dict.get minor_name subcats = Some old_ratio ->
  Dict.get new_minor_name subcats = None ->
  exists edited,
    edit_minor subcats minor_name new_minor_name new_minor_ratio = Return edited
    /\ Dict.get new_minor_name edited = Some old_ratio
    /\ Dict.get minor_name edited = Some new_minor_ratio
    /\ (forall other, other <> minor_name -> other <> new_minor_name ->
          Dict.get other edited = Dict.get other subcats)
    /\ py_sum (Dict.values edited) == py_sum (Dict.values subcats) + new_minor_ratio.
Proof.
  intros Hnd Hne Hold Hnew.
  eexists. split.
  { unfold edit_minor. apply String.eqb_neq in Hne. rewrite Hne. cbn [negb].
    rewrite Hold. reflexivity. }
  assert (Hn1 : Dict.get new_minor_name (Dict.del minor_name subcats) = None).
  { now rewrite DictFacts.get_del_other. }
  assert (Hn2 : Dict.get minor_name
                  (Dict.set new_minor_name old_ratio (Dict.del minor_name subcats))
                = None).
  { rewrite DictFacts.get_set_other by congruence. apply DictFacts.get_del_same. }
  split; [|split; [|split]].
  - rewrite DictFacts.get_set_other by assumption. apply DictFacts.get_set_same.
  - apply DictFacts.get_set_same.
  - intros other Ho Hn.
    rewrite !DictFacts.get_set_other, DictFacts.get_del_other by assumption.
    reflexivity.
  - rewrite py_sum_set_absent by assumption.
    rewrite py_sum_set_absent by assumption.
    rewrite <- (py_sum_del_present subcats minor_name old_ratio Hnd Hold). lra.
Qed.

Lemma edit_minor_rename_keeps_old_name_witness :
  NoDup (Dict.keys [("利率/国债"%string, 0.20); ("信用/信用"%string, 0.20)])
  /\ "国债"%string <> "利率/国债"%string
  /\ exists edited,
       edit_minor [("利率/国债"%string, 0.20); ("信用/信用"%string, 0.20)]
         "利率/国债" "国债" 0.20 = Return edited
       /\ Dict.get "国债" edited = Some 0.20
       /\ Dict.get "利率/国债" edited = Some 0.20.
Proof.
  assert (Hnd : NoDup (Dict.keys [("利率/国债"%string, 0.20); ("信用/信用"%string, 0.20)]))
    by (apply NoDup_by_nodup; vm_compute; reflexivity).
  split; [exact Hnd|]. split; [discriminate|].
  destruct (edit_minor_rename_keeps_old_name
              [("利率/国债"%string, 0.20); ("信用/信用"%string, 0.20)]
              "利率/国债" "国债" 0.20 0.20 Hnd)
    as (edited & H1 & H2 & H3 & _); [discriminate|reflexivity|reflexivity|].
  exists edited. auto.
Defined.

(** ** Aggregation *)

Section AggregationFacts.

Variable key : df_row -> string.

Let group (df : list df_row) (k : string) : Q :=
  py_sum (map df_value (filter (fun r => String.eqb (key r) k) df)).

Let among (ks : list string) (r : df_row) : bool :=
  existsb (String.eqb (key r)) ks.

Lemma py_sum_filter_split (p q : df_row -> bool) (df : list df_row) :
  (forall r, p r = true -> q r = false) ->
  py_sum (map df_value (filter (fun r => p r || q r) df))
  == py_sum (map df_value (filter p df)) + py_sum (map df_value (filter q df)).
Proof.
  intros Hdis. induction df as [|r df IH]; simpl; [reflexivity|].
  destruct (p r) eqn:Hp; simpl.
  - rewrite (Hdis r Hp). rewrite !py_sum_cons, IH. ring.
  - destruct (q r); simpl; rewrite ?py_sum_cons, IH; ring.
Qed.

Lemma among_absent ks r k :
  ~ In k ks -> String.eqb (key r) k = true -> among ks r = false.
Proof.
  intros Hnin Hk. apply String.eqb_eq in Hk. subst k.
  unfold among. destruct (existsb _ ks) eqn:E; [|reflexivity].
  apply existsb_exists in E. destruct E as (k & Hin & Hk).
  apply String.eqb_eq in Hk. subst. contradiction.
Qed.

(** The groups of distinct keys add up to the rows that have one of the
    keys. *)
Lemma groups_sum (ks : list string) (df : list df_row) :
  NoDup ks ->
  py_sum (map (group df) ks) == py_sum (map df_value (filter (among ks) df)).
Proof.
  intros Hnd. induction ks as [|k ks IH]; simpl.
  - assert (E : filter (among []) df = []).
    { induction df as [|r df IHd]; simpl; [reflexivity|exact IHd]. }
    rewrite E. reflexivity.
  - inversion Hnd as [|? ? Hnin Hnd']; subst.
    rewrite py_sum_cons, (IH Hnd').
    assert (E : filter (among (k :: ks)) df
                = filter (fun r => String.eqb (key r) k || among ks r) df).
    { apply filter_ext. intros r. reflexivity. }
    rewrite E, py_sum_filter_split; [reflexivity|].
    intros r Hk. now apply (among_absent ks r k).
Qed.

Lemma filter_all {T : Type} (p : T -> bool) (l : list T) :
  (forall x, In x l -> p x = true) -> filter p l = l.
Proof.
  induction l as [|x l IH]; simpl; intros H; [reflexivity|].
  rewrite (H x) by auto. f_equal. apply IH. auto.
Qed.

Lemma groupby_values df :
  Dict.values (groupby_sum key df) = map (group df) (nodup string_dec (map key df)).
Proof. unfold Dict.values, groupby_sum. rewrite map_map. reflexivity. Qed.

Lemma groupby_sum_total df :
  py_sum (Dict.values (groupby_sum key df)) == total_value df.
Proof.
  rewrite groupby_values, groups_sum by apply NoDup_nodup.
  rewrite filter_all; [reflexivity|].
  intros r Hr. unfold among. apply existsb_exists. exists (key r).
  split; [|apply String.eqb_refl].
  apply nodup_In. now apply in_map.
Qed.

Lemma get0_groupby df k : get0 k (groupby_sum key df) == group df k.
Proof.
  unfold get0. rewrite groupby_sum_get.
  destruct (in_dec string_dec k (map key df)) as [Hin|Hnin]; [reflexivity|].
  unfold group.
  assert (E : filter (fun r => String.eqb (key r) k) df = []).
  { induction df as [|r df IH]; simpl; [reflexivity|].
    destruct (String.eqb (key r) k) eqn:Hk.
    - exfalso. apply Hnin. apply String.eqb_eq in Hk. simpl. auto.
    - apply IH. intros H. apply Hnin. simpl. auto. }
  rewrite E. reflexivity.
Qed.

(** The values read for a list of distinct keys add up to the rows that
    have one of the keys. *)
Lemma get0_groupby_sum df (ks : list string) :
  NoDup ks ->
  py_sum (map (fun k => get0 k (groupby_sum key df)) ks)
  == py_sum (map df_value (filter (among ks) df)).
Proof.
  intros Hnd. rewrite <- (groups_sum ks df Hnd).
  clear Hnd. induction ks as [|k ks IH]; simpl; [reflexivity|].
  rewrite !py_sum_cons, IH, get0_groupby. reflexivity.
Qed.

End AggregationFacts.

Lemma py_sum_map_sub {T : Type} (g h : T -> Q) (items : list T) :
  py_sum (map (fun item => g item - h item) items)
  == py_sum (map g items) - py_sum (map h items).
Proof.
  induction items as [|item items IH]; simpl; [reflexivity|].
  rewrite !py_sum_cons, IH. ring.
Qed.

Lemma py_sum_map_scale {T : Type} (c : Q) (h : T -> Q) (items : list T) :
  py_sum (map (fun item => c * h item) items) == c * py_sum (map h items).
Proof.
  induction items as [|item items IH]; simpl.
  - unfold py_sum. simpl. ring.
  - rewrite !py_sum_cons, IH. ring.
Qed.

(** X16.  Grouping loses and adds nothing: the values of the subcategory
    summary add up to the portfolio's total, and so do the values of the
    major-category summary. *)
Theorem summaries_add_up_to_total (df : list df_row) :
  py_sum (Dict.values (sub_summary df)) == total_value df
  /\ py_sum (Dict.values (cls_summary df)) == total_value df.
Proof.
  split; [apply (groupby_sum_total df_category)|apply (groupby_sum_total df_major)].
Qed.

(** X17.  The subcategory deviations balance: over the configured keys they
    add up to the value held in configured subcategories minus the total
    times the sum of the target ratios.  So when every holding is in a
    configured subcategory and the ratios add up to 1, the deviations add up
    to 0. *)
Theorem sub_deviations_balance (df : list df_row) (categories : Dict.t major_data) :
  py_sum (Dict.values (sub_diff df (snd (flatten_categories categories))))
  == configured_value df (snd (flatten_categories categories))
     - total_value df * sub_total categories.
Proof.
  pose proof (flatten_sub_NoDup categories) as Hnd.
  unfold sub_total.
  generalize dependent (snd (flatten_categories categories)). intros targets Hnd.
  unfold sub_diff. rewrite diff_loop_map by assumption. cbn [fst].
  unfold Dict.values. rewrite map_map. cbn [snd].
  rewrite (py_sum_map_sub (fun item => get0 (fst item) (sub_summary df))
             (fun item => total_value df * snd item)).
  rewrite (py_sum_map_scale (total_value df) snd).
  assert (E1 : py_sum (map (fun item : string * Q => get0 (fst item) (sub_summary df))
                           targets)
               == configured_value df targets).
  { rewrite <- (map_map fst (fun k => get0 k (sub_summary df))).
    unfold sub_summary. rewrite (get0_groupby_sum df_category df _ Hnd).
    unfold configured_value.
    erewrite filter_ext; [reflexivity|].
    intros r. cbv beta zeta.
    destruct (Dict.mem (df_category r) targets) eqn:Hm.
    - apply DictFacts.mem_true_iff in Hm. apply existsb_exists.
      exists (df_category r). split; [exact Hm|apply String.eqb_refl].
    - destruct (existsb (String.eqb (df_category r)) (Dict.keys targets)) eqn:He;
        [|reflexivity].
      apply existsb_exists in He. destruct He as (k & Hin & Hk).
      apply String.eqb_eq in Hk. subst k.
      apply DictFacts.mem_true_iff in Hin. congruence. }
  rewrite E1. reflexivity.
Qed.
